(** * temp_control: a bang-bang thermostat on the Raspberry Pi 2

    A shallow embedding of [pi_helpers.h] (GPIO, system timer and SPI
    helpers working on memory-mapped registers) and of [temp_control.c]
    (the ADC read-out, the control step [check_temp] and [main]), with the
    properties of the design document stated and settled against it.

    Conventions of the embedding.
    - The target is the BCM2836 of the Pi 2, a 32-bit ARM core running
      Linux: [int], [long], [unsigned int] and [size_t] are 32 bits wide
      and plain [char] is unsigned.  Integers are values of [Z]; every
      conversion and wrap-around the C code performs is written out with
      [to_uint], [to_int] and [to_char].
    - The GPIO window is a register file: a load yields what was stored
      last (the function-select registers are plain read/write cells, and
      [pin_mode] relies on reading them back).
    - The timer and the SPI block answer loads on their own: each register
      the code loads from has a tape of the words its successive loads
      yield.  A polling loop
      consumes the tape until the awaited bit shows up; a tape that runs
      dry is a device that never answers, and the program hangs there.
    - Every store to a register and every line printed is appended to a
      chronological trace.
    - [double] is IEEE binary64, computed with the executable
      specification [SpecFloat] of the Standard Library. *)

From Stdlib Require Import ZArith Lia List Bool String Ascii.
From Stdlib Require Import DecimalString QArith.
From Stdlib Require Import Floats.SpecFloat.
Import ListNotations.

Local Open Scope string_scope.
Local Open Scope list_scope.
Local Open Scope Z_scope.

(** ** C integer types of the target *)

Module CInt.

Definition INT_MIN : Z := - 2 ^ 31.
Definition INT_MAX : Z := 2 ^ 31 - 1.

(** Conversion to [unsigned int] (and to [size_t]). *)
Definition to_uint (z : Z) : Z := z mod 2 ^ 32.

(** Conversion to [int] (and to [long]): two's complement wrap-around. *)
Definition to_int (z : Z) : Z := (z + 2 ^ 31) mod 2 ^ 32 - 2 ^ 31.

(** Conversion to [char], which is unsigned on this target. *)
Definition to_char (z : Z) : Z := z mod 2 ^ 8.

Definition is_int (z : Z) : Prop := INT_MIN <= z <= INT_MAX.

(** [a << n] on [int] operands. *)
Definition shl_int (a n : Z) : Z := to_int (Z.shiftl a n).

(** [a * b] on [int] operands. *)
Definition mul_int (a b : Z) : Z := to_int (a * b).

(** [~a] on an [int] operand. *)
Definition not_int (a : Z) : Z := Z.lnot a.

(** [a / b] and [a % b] truncate towards zero. *)
Definition div_int (a b : Z) : Z := Z.quot a b.
Definition rem_int (a b : Z) : Z := Z.rem a b.

End CInt.
Import CInt.

(** ** printf conversions *)

(** [%d], and [%lu] on a value already reduced to its unsigned range. *)
Definition decimal (z : Z) : string := NilZero.string_of_int (Z.to_int z).

Definition newline : string := String (ascii_of_nat 10) EmptyString.
Definition tab : string := String (ascii_of_nat 9) EmptyString.

(** ** The machine *)

Inductive device : Type := GPIO | TIMER | SPI0.

Inductive event : Type :=
| Printf (line : string)
| Store (d : device) (index : Z) (value : Z).

Record world : Type := mkWorld {
  gpio : Z -> Z;              (* contents of the GPIO window, by word index *)
  timer_cs : list Z;          (* what the loads of sys_timer[0] yield *)
  timer_clo : list Z;         (* what the loads of sys_timer[1] yield *)
  spi0_cs : list Z;           (* what the loads of spi0[0] yield *)
  spi0_fifo : list Z;         (* what the loads of spi0[1] yield *)
  dev_mem_ok : bool;          (* open("/dev/mem") succeeds *)
  mmap_ok : bool;             (* mmap of a peripheral block succeeds *)
  trace : list event          (* stores and printed text, oldest first *)
}.

Definition emit (e : event) (w : world) : world :=
  mkWorld (gpio w) (timer_cs w) (timer_clo w) (spi0_cs w) (spi0_fifo w)
          (dev_mem_ok w) (mmap_ok w) (trace w ++ [e]).

Definition printf (s : string) (w : world) : world := emit (Printf s) w.

(** [gpio[i] = v] *)
Definition gpio_store (i v : Z) (w : world) : world :=
  mkWorld (fun j => if j =? i then to_uint v else gpio w j)
          (timer_cs w) (timer_clo w) (spi0_cs w) (spi0_fifo w)
          (dev_mem_ok w) (mmap_ok w)
          (trace w ++ [Store GPIO i (to_uint v)]).

Definition device_eqb (a b : device) : bool :=
  match a, b with
  | GPIO, GPIO | TIMER, TIMER | SPI0, SPI0 => true
  | _, _ => false
  end.

(** The stores of a trace that go to a given device: word index and
    value, oldest first. *)
Fixpoint stores_to (d : device) (t : list event) : list (Z * Z) :=
  match t with
  | [] => []
  | Store d' i v :: t' =>
      if device_eqb d' d then (i, v) :: stores_to d t' else stores_to d t'
  | Printf _ :: t' => stores_to d t'
  end.

(** The text printed by a trace. *)
Fixpoint console (t : list event) : list string :=
  match t with
  | [] => []
  | Printf s :: t' => s :: console t'
  | Store _ _ _ :: t' => console t'
  end.

(** ** GPIO helpers ([pi_helpers.h]) *)

Definition INPUT : Z := 0.
Definition OUTPUT : Z := 1.
Definition ALT0 : Z := 4.
Definition ALT1 : Z := 5.
Definition ALT2 : Z := 6.
Definition ALT3 : Z := 7.
Definition ALT4 : Z := 3.
Definition ALT5 : Z := 2.

(** The two read-modify-write statements of [pin_mode]:
      gpio[offset] &= ~((~function & 7) << shift);
      gpio[offset] |= function << shift;                       *)
Definition pin_mode_update (pin function : Z) (w : world) : world :=
  let offset := to_uint (div_int pin 10) in
  let shift := to_uint (rem_int pin 10 * 3) in
  let w1 :=
    gpio_store offset
      (Z.land (gpio w offset)
              (to_uint (not_int (shl_int (Z.land (not_int function) 7) shift))))
      w in
  gpio_store offset
    (Z.lor (gpio w1 offset) (to_uint (shl_int function shift)))
    w1.

Definition pin_mode (pin function : Z) (w : world) : world :=
  if (pin >? 53) || (pin <? 0) then
    printf ("bad pin, got pin " ++ decimal pin ++ newline)%string w
  else
    let w' :=
      if (function >? 7) || (function <? 0) then
        printf ("bad function, got function " ++ decimal function ++ newline)%string w
      else w in
    pin_mode_update pin function w'.

Definition digital_write (pin val : Z) (w : world) : world :=
  if (pin >? 53) || (pin <? 0) then
    printf ("bad pin, got pin " ++ decimal pin ++ newline)%string w
  else if negb (val =? 0) then
    let set := if pin <? 32 then 7 else 8 in
    gpio_store set (shl_int 1 (rem_int pin 32)) w
  else
    let clr := if pin <? 32 then 10 else 11 in
    gpio_store clr (shl_int 1 (rem_int pin 32)) w.

Definition digital_read (pin : Z) (w : world) : Z * world :=
  if (pin >? 53) || (pin <? 0) then
    (0, printf ("bad pin, got pin " ++ decimal pin ++ newline)%string w)
  else if pin <? 32 then
    (to_int (Z.land (Z.shiftr (gpio w 13) pin) 1), w)
  else
    (to_int (Z.land (Z.shiftr (gpio w 14) (pin - 32)) 1), w).

(** The 3-bit function-select field of a pin: register [pin / 10], bits
    [(pin % 10) * 3 .. (pin % 10) * 3 + 2]. *)
Definition fsel_field (g : Z -> Z) (pin : Z) : Z :=
  Z.land (Z.shiftr (g (pin / 10)) ((pin mod 10) * 3)) 7.

(** ** Programs that may leave the process or wait for a device *)

Inductive result (A : Type) : Type :=
| Ok (a : A) (w : world)          (* ran to its end *)
| Exit (code : Z) (w : world)     (* exit(), or a return from main *)
| Hang (w : world).               (* stuck on a device that does not answer *)

Arguments Ok {A} a w.
Arguments Exit {A} code w.
Arguments Hang {A} w.

Definition M (A : Type) : Type := world -> result A.

Definition ret {A : Type} (a : A) : M A := fun w => Ok a w.

Definition bind {A B : Type} (m : M A) (k : A -> M B) : M B :=
  fun w =>
    match m w with
    | Ok a w' => k a w'
    | Exit code w' => Exit code w'
    | Hang w' => Hang w'
    end.

Notation "x <- m ;; k" := (bind m (fun x => k))
  (at level 61, m at next level, right associativity).
Notation "m ;; k" := (bind m (fun _ => k))
  (at level 61, right associativity).

Definition lift (f : world -> world) : M unit := fun w => Ok tt (f w).

Definition exit {A : Type} (code : Z) : M A := fun w => Exit code w.

(** The registers the code loads from: [sys_timer[0]] (CS, the match
    flags), [sys_timer[1]] (CLO, the counter), [spi0[0]] (CS, control and
    status) and [spi0[1]] (FIFO, the data). *)
Definition with_timer_cs (l : list Z) (w : world) : world :=
  mkWorld (gpio w) l (timer_clo w) (spi0_cs w) (spi0_fifo w)
          (dev_mem_ok w) (mmap_ok w) (trace w).

Definition with_timer_clo (l : list Z) (w : world) : world :=
  mkWorld (gpio w) (timer_cs w) l (spi0_cs w) (spi0_fifo w)
          (dev_mem_ok w) (mmap_ok w) (trace w).

Definition with_spi0_cs (l : list Z) (w : world) : world :=
  mkWorld (gpio w) (timer_cs w) (timer_clo w) l (spi0_fifo w)
          (dev_mem_ok w) (mmap_ok w) (trace w).

Definition with_spi0_fifo (l : list Z) (w : world) : world :=
  mkWorld (gpio w) (timer_cs w) (timer_clo w) (spi0_cs w) l
          (dev_mem_ok w) (mmap_ok w) (trace w).

(** A load: the next word of the register's tape. *)
Definition load (tape : world -> list Z) (with_tape : list Z -> world -> world)
  : M Z :=
  fun w =>
    match tape w with
    | [] => Hang w
    | v :: rest => Ok v (with_tape rest w)
    end.

(** [sys_timer[1]], [spi0[0]] and [spi0[1]] as rvalues. *)
Definition timer_load_clo : M Z := load timer_clo with_timer_clo.
Definition spi0_load_cs : M Z := load spi0_cs with_spi0_cs.
Definition spi0_load_fifo : M Z := load spi0_fifo with_spi0_fifo.

(** [sys_timer[i] = v] and [spi0[i] = v]. *)
Definition timer_store (i v : Z) : M unit :=
  lift (emit (Store TIMER i (to_uint v))).

Definition spi0_store (i v : Z) : M unit :=
  lift (emit (Store SPI0 i (to_uint v))).

(** A loop [while ((reg & mask) == 0);] run over the words the register
    yields: what is left of the tape once a word shows the bit. *)
Fixpoint await (mask : Z) (tape : list Z) : option (list Z) :=
  match tape with
  | [] => None
  | v :: rest => if Z.land v mask =? 0 then await mask rest else Some rest
  end.

Definition poll (tape : world -> list Z) (with_tape : list Z -> world -> world)
  (mask : Z) : M unit :=
  fun w =>
    match await mask (tape w) with
    | Some rest => Ok tt (with_tape rest w)
    | None => Hang (with_tape [] w)
    end.

Definition timer_await_cs (mask : Z) : M unit := poll timer_cs with_timer_cs mask.
Definition spi0_await_cs (mask : Z) : M unit := poll spi0_cs with_spi0_cs mask.

(** Opening /dev/mem and mapping one block, as [pio_init], [timer_init]
    and [spi_init] do it; [name] is the word their mmap diagnostic starts
    with.  MAP_FAILED is (void * ) -1, printed through [(int)]. *)
Definition map_block (name : string) : M unit :=
  fun w =>
    if negb (dev_mem_ok w) then
      Exit (-1) (printf ("can't open /dev/mem " ++ newline)%string w)
    else if negb (mmap_ok w) then
      Exit (-1)
           (printf (name ++ " mmap error " ++ decimal (-1) ++ newline)%string w)
    else Ok tt w.

Definition pio_init : M unit := map_block "gpio".

Definition timer_init : M unit := map_block "sys_timer".

(** ** System timer *)

Definition sleep_micros (micros : Z) : M unit :=
  if micros =? 0 then ret tt
  else
    clo <- timer_load_clo ;;
    timer_store 4 (clo + to_uint micros) ;;
    timer_store 0 0x2 ;;
    timer_await_cs 0x2.

Definition sleep_millis (millis : Z) : M unit :=
  sleep_micros (mul_int 1000 millis).

(** ** SPI master *)

Definition spi_init (freq settings : Z) : M unit :=
  map_block "sys_timer" ;;
  lift (pin_mode 8 ALT0) ;;
  lift (pin_mode 9 ALT0) ;;
  lift (pin_mode 10 ALT0) ;;
  lift (pin_mode 11 ALT0) ;;
  spi0_store 2 (div_int 250000000 freq) ;;
  spi0_store 0 settings ;;
  cs <- spi0_load_cs ;;
  spi0_store 0 (Z.lor cs 0x00000080).

Definition spi_send_receive (send : Z) : M Z :=
  spi0_store 1 send ;;
  spi0_await_cs 0x00010000 ;;
  data <- spi0_load_fifo ;;
  ret (to_char data).

(** ** IEEE double precision *)

Definition double : Type := spec_float.

Definition dbl_prec : Z := 53.
Definition dbl_emax : Z := 1024.

(** Conversion of an integer to [double] (round to nearest even). *)
Definition double_of_Z (z : Z) : double :=
  binary_normalize dbl_prec dbl_emax z 0 false.

Definition dmul (x y : double) : double := SFmul dbl_prec dbl_emax x y.
Definition ddiv (x y : double) : double := SFdiv dbl_prec dbl_emax x y.

(** The literals [1024.0] and [31.25] (= 125 / 4). *)
Definition d1024_0 : double := double_of_Z 1024.
Definition d31_25 : double := binary_normalize dbl_prec dbl_emax 125 (-2) false.

(** Conversion of a [double] to an integer type discards the fraction. *)
Definition trunc_double (x : double) : Z :=
  match x with
  | S754_finite s m e =>
      let a := if 0 <=? e then Zpos m * 2 ^ e else Zpos m / 2 ^ (- e) in
      if s then - a else a
  | _ => 0
  end.

Definition size_t_of_double (x : double) : Z := to_uint (trunc_double x).

(** [fmax] of math.h: the larger argument; a NaN argument is ignored. *)
Definition fmax (x y : double) : double :=
  match SFcompare x y with
  | Some Lt => y
  | Some _ => x
  | None => match x with S754_nan => y | _ => x end
  end.

(** ** temp_control.c *)

Definition CONTROLPIN : Z := 17.

Definition int_handler (sig : Z) : M unit :=
  lift (digital_write CONTROLPIN 0) ;;
  exit 0.

(** Lines 65-70 of [get_current_temp]: from the two bytes received to the
    temperature. *)
Definition adc_response (one two : Z) : Z :=
  let response := 0x00000000 in
  let response := shl_int (Z.lor response (Z.land one 0x03)) 8 in
  Z.lor response two.

Definition adc_celsius (one two : Z) : double :=
  let response := adc_response one two in
  let voltage := ddiv (double_of_Z (mul_int response 5)) d1024_0 in
  dmul d31_25 voltage.

Definition get_current_temp : M double :=
  one <- spi_send_receive 0x68 ;;
  two <- spi_send_receive 0x00 ;;
  ret (adc_celsius one two).

(** The three [size_t] cells of [main] that [check_temp] works on. *)
Record control : Type := mkControl {
  target_temp : Z;
  last_temp : Z;
  overshoot : Z
}.

(** [check_temp] from its second statement on, [current_temp] being the
    truncated reading. *)
Definition check_temp_body (current_temp : Z) (c : control) : M control :=
  c1 <-
    (if negb (current_temp =? last_temp c) then
       lift (printf ("current temp: " ++ decimal current_temp ++ newline)%string) ;;
       (if target_temp c <=? current_temp then
          lift (printf ("overshoot: "
                          ++ decimal (to_uint (overshoot c - target_temp c))
                          ++ newline)%string)
        else ret tt) ;;
       ret (mkControl (target_temp c) current_temp (overshoot c))
     else ret c) ;;
  (if current_temp <? target_temp c1 then
     lift (digital_write CONTROLPIN 1)
   else
     lift (digital_write CONTROLPIN 0)) ;;
  ret (mkControl (target_temp c1) (last_temp c1)
         (size_t_of_double
            (fmax (double_of_Z current_temp) (double_of_Z (overshoot c1))))).

Definition check_temp (c : control) : M control :=
  t <- get_current_temp ;;
  check_temp_body (size_t_of_double t) c.

(** [n] turns of [while(1) check_temp(...)]. *)
Fixpoint control_loop (n : nat) (c : control) : M control :=
  match n with
  | O => ret c
  | S n' => c' <- check_temp c ;; control_loop n' c'
  end.

(** [strtol(s, NULL, 10)] of the C library, [long] being 32 bits: white
    space, an optional sign, the longest run of decimal digits, clamped to
    the range of [long]; zero when there is no digit. *)
Definition isspace (c : ascii) : bool :=
  let n := Z.of_nat (nat_of_ascii c) in
  (n =? 32) || ((9 <=? n) && (n <=? 13)).

Definition digit_val (c : ascii) : option Z :=
  let n := Z.of_nat (nat_of_ascii c) in
  if (48 <=? n) && (n <=? 57) then Some (n - 48) else None.

Fixpoint skip_spaces (s : string) : string :=
  match s with
  | String c s' => if isspace c then skip_spaces s' else s
  | EmptyString => s
  end.

Fixpoint digits_value (acc : Z) (s : string) : Z :=
  match s with
  | String c s' =>
      match digit_val c with
      | Some d => digits_value (10 * acc + d) s'
      | None => acc
      end
  | EmptyString => acc
  end.

Definition strtol (s : string) : Z :=
  match skip_spaces s with
  | String "-" s' => Z.max INT_MIN (- digits_value 0 s')
  | String "+" s' => Z.min INT_MAX (digits_value 0 s')
  | s' => Z.min INT_MAX (digits_value 0 s')
  end.

(** [main]: [argv] holds the program name and the arguments, [argc] is
    its length; [iterations] bounds how far into the endless loop the run
    is followed, and [Ok c] is the program still looping, with its three
    cells as [c].  Signals are not delivered in this model, so installing
    [int_handler] with sigaction leaves no mark. *)
Definition main (iterations : nat) (argv : list string) : M control :=
  let argc := Z.of_nat (List.length argv) in
  if negb (argc =? 2) then
    lift (printf ("Incorrect call to temp_control. The correct format is"
                    ++ newline)%string) ;;
    lift (printf (tab ++ "./temp_control temperature" ++ newline)%string) ;;
    exit 1
  else
    let target_temp := to_uint (strtol (nth 1 argv EmptyString)) in
    if (target_temp >? 70) || (target_temp <? 30) then
      lift (printf ("Invalid temperature parameter. Please choose a temperature"
                      ++ "between 30 and 70" ++ newline)%string) ;;
      exit 2
    else
      pio_init ;;
      spi_init 244000 0 ;;
      lift (pin_mode CONTROLPIN OUTPUT) ;;
      control_loop iterations (mkControl target_temp 0 0).

(** ** Notions the properties are stated with *)

(** Where a run has got to, whatever its outcome. *)
Definition world_of {A : Type} (r : result A) : world :=
  match r with
  | Ok _ w => w
  | Exit _ w => w
  | Hang w => w
  end.

Definition value_of {A : Type} (r : result A) : option A :=
  match r with
  | Ok a _ => Some a
  | _ => None
  end.

(** The truncated reading [check_temp] obtains when the data register
    yields the words [d1] and [d2], and the readings a tape of such words
    stands for, two words to a reading. *)
Definition reading (d1 d2 : Z) : Z :=
  size_t_of_double (adc_celsius (to_char d1) (to_char d2)).

Fixpoint readings (fifo : list Z) : list Z :=
  match fifo with
  | d1 :: d2 :: rest => reading d1 d2 :: readings rest
  | _ => []
  end.

(** How many words of a status tape show the awaited bit. *)
Fixpoint count_ready (mask : Z) (tape : list Z) : nat :=
  match tape with
  | [] => O
  | v :: rest =>
      if Z.land v mask =? 0 then count_ready mask rest
      else S (count_ready mask rest)
  end.

(** The number a finite [double] stands for. *)
Definition double_value (x : double) : option Q :=
  match x with
  | S754_zero _ => Some 0%Q
  | S754_finite s m e =>
      Some (inject_Z (if s then Zneg m else Zpos m) * Qpower 2 e)%Q
  | _ => None
  end.

(** The conversion as the design document words it:
    31.25 x ((((b1 & 0x03) << 8) | b2) x 5 / 1024). *)
Definition celsius_formula (b1 b2 : Z) : Q :=
  ((3125 # 100)
   * (inject_Z (Z.lor (Z.shiftl (Z.land b1 0x03) 8) b2 * 5) / inject_Z 1024))%Q.

(** Exhaustive checks over the 4 x 256 samples the ADC can deliver. *)
Definition upto (n : nat) : list Z := map Z.of_nat (seq 0 n).

(** The double computed is the number the formula denotes. *)
Definition celsius_exact (x b2 : Z) : bool :=
  match double_value (adc_celsius x b2) with
  | Some q => Qeq_bool q (celsius_formula x b2)
  | None => false
  end.

(** The truncated reading is the sample times 625 / 4096, rounded down. *)
Definition reading_exact (x b2 : Z) : bool :=
  size_t_of_double (adc_celsius x b2) =? adc_response x b2 * 625 / 4096.

Definition reading_bounded (x b2 : Z) : bool :=
  (0 <=? size_t_of_double (adc_celsius x b2))
  && (size_t_of_double (adc_celsius x b2) <=? 156).

(** A machine with all GPIO words zero and devices that never answer. *)
Definition blank_world : world :=
  mkWorld (fun _ => 0) [] [] [] [] true true [].

(** A machine whose SPI block completes every transfer at once and hands
    out the given data words. *)
Definition spi_world (fifo : list Z) : world :=
  mkWorld (fun _ => 0) [] []
          (repeat 0x00010000 (List.length fifo + 1)) fifo
          true true [].

(** Data words for the readings 45, 45, 52, 52, 49: the 10-bit samples
    295, 295, 341, 341 and 322. *)
Definition scenario_fifo : list Z := [1; 39; 1; 39; 1; 85; 1; 85; 1; 66].

(** A machine whose timer counter reads [clo] once and whose status word
    yields the given words. *)
Definition timer_world (clo : Z) (cs : list Z) : world :=
  mkWorld (fun _ => 0) cs [clo] [] [] true true [].

(** A machine on which /dev/mem cannot be opened, and one on which it can
    but is refused the mapping. *)
Definition no_dev_mem_world : world :=
  mkWorld (fun _ => 0) [] [] [] [] false true [].

Definition no_mmap_world : world :=
  mkWorld (fun _ => 0) [] [] [] [] true false [].

(** The heater and the console are as they were: no store to a GPIO word,
    no line printed, the GPIO words unchanged. *)
Definition heater_untouched (w w' : world) : Prop :=
  stores_to GPIO (trace w') = stores_to GPIO (trace w)
  /\ console (trace w') = console (trace w)
  /\ forall i, gpio w' i = gpio w i.

(** The store [check_temp] makes to the heater pin on a reading: bit 17 to
    the set word 7 below the target, to the clear word 10 otherwise. *)
Definition heater_store (target r : Z) : Z * Z :=
  (if r <? target then 7 else 10, 2 ^ 17).

(** * Properties *)

(** ** Traces *)

Lemma stores_to_app (d : device) (t1 t2 : list event) :
  stores_to d (t1 ++ t2) = stores_to d t1 ++ stores_to d t2.
Proof.
  induction t1 as [| [s | d' i v] t1 IH]; simpl.
  - reflexivity.
  - exact IH.
  - destruct (device_eqb d' d); simpl; rewrite IH; reflexivity.
Qed.

Lemma console_app (t1 t2 : list event) :
  console (t1 ++ t2) = console t1 ++ console t2.
Proof.
  induction t1 as [| [s | d i v] t1 IH]; simpl; rewrite ?IH; reflexivity.
Qed.

(** Printing touches no register. *)
Lemma printf_frame (s : string) (w : world) :
  (forall d, stores_to d (trace (printf s w)) = stores_to d (trace w))
  /\ (forall i, gpio (printf s w) i = gpio w i)
  /\ console (trace (printf s w)) = console (trace w) ++ [s].
Proof.
  unfold printf, emit. cbn [trace gpio]. split; [| split].
  - intros d. rewrite stores_to_app. apply app_nil_r.
  - reflexivity.
  - apply console_app.
Qed.

(** ** C integer conversions *)

Lemma to_uint_small (z : Z) : 0 <= z < 2 ^ 32 -> to_uint z = z.
Proof. intros H. unfold to_uint. apply Z.mod_small. exact H. Qed.

Lemma to_int_small (z : Z) : INT_MIN <= z <= INT_MAX -> to_int z = z.
Proof.
  unfold INT_MIN, INT_MAX, to_int. intros H.
  rewrite Z.mod_small; lia.
Qed.

Lemma to_uint_to_int (z : Z) : to_uint (to_int z) = to_uint z.
Proof.
  unfold to_uint, to_int.
  rewrite Zminus_mod, Zmod_mod, <- Zminus_mod.
  f_equal. lia.
Qed.

Lemma to_uint_range (z : Z) : 0 <= to_uint z < 2 ^ 32.
Proof. unfold to_uint. apply Z.mod_pos_bound. lia. Qed.

Lemma testbit_to_uint (z k : Z) :
  0 <= k -> Z.testbit (to_uint z) k = (k <? 32) && Z.testbit z k.
Proof.
  intros Hk. unfold to_uint.
  destruct (Z.ltb_spec k 32).
  - rewrite Z.mod_pow2_bits_low by lia. reflexivity.
  - rewrite Z.mod_pow2_bits_high by lia. reflexivity.
Qed.

Lemma testbit_to_int_low (z k : Z) :
  0 <= k < 32 -> Z.testbit (to_int z) k = Z.testbit z k.
Proof.
  intros Hk.
  assert (E : Z.testbit (to_uint (to_int z)) k = Z.testbit (to_uint z) k)
    by (rewrite to_uint_to_int; reflexivity).
  rewrite !testbit_to_uint in E by lia.
  destruct (Z.ltb_spec k 32); [exact E | lia].
Qed.

Lemma testbit_3bits_high (f j : Z) : 0 <= f <= 7 -> 3 <= j -> Z.testbit f j = false.
Proof.
  intros Hf Hj.
  rewrite <- (Z.mod_small f (2 ^ 3)) by lia.
  apply Z.mod_pow2_bits_high. lia.
Qed.

Lemma testbit_7 (k : Z) : 0 <= k -> Z.testbit 7 k = (k <? 3).
Proof. intros Hk. change 7 with (Z.ones 3). apply Z.testbit_ones_nonneg; lia. Qed.

Lemma pin_mode_offset (p : Z) : 0 <= p <= 53 -> to_uint (div_int p 10) = p / 10.
Proof.
  intros Hp. unfold div_int. rewrite Z.quot_div_nonneg by lia.
  apply to_uint_small.
  assert (0 <= p / 10 < 6) by (split; [apply Z.div_pos | apply Z.div_lt_upper_bound]; lia).
  lia.
Qed.

Lemma pin_mode_shift (p : Z) :
  0 <= p <= 53 -> to_uint (rem_int p 10 * 3) = (p mod 10) * 3.
Proof.
  intros Hp. unfold rem_int. rewrite Z.rem_mod_nonneg by lia.
  apply to_uint_small.
  assert (0 <= p mod 10 < 10) by (apply Z.mod_pos_bound; lia).
  lia.
Qed.

Lemma pin_accepted (p : Z) : 0 <= p <= 53 -> (p >? 53) || (p <? 0) = false.
Proof.
  intros Hp. destruct (Z.gtb_spec p 53), (Z.ltb_spec p 0); simpl; lia || reflexivity.
Qed.

Lemma pin_rejected (p : Z) : p < 0 \/ 53 < p -> (p >? 53) || (p <? 0) = true.
Proof.
  intros Hp. destruct (Z.gtb_spec p 53), (Z.ltb_spec p 0); simpl; lia || reflexivity.
Qed.

(** Bit by bit, the word the two statements of [pin_mode] leave in the
    register: the new function in the pin's field, the old word around it. *)
Lemma pin_mode_word_bits (g f s k : Z) :
  0 <= s <= 27 -> 0 <= f <= 7 -> 0 <= k ->
  Z.testbit
    (to_uint
       (Z.lor
          (to_uint
             (Z.land g
                (to_uint (not_int (shl_int (Z.land (not_int f) 7) s)))))
          (to_uint (shl_int f s)))) k
  = if (s <=? k) && (k <? s + 3) then Z.testbit f (k - s)
    else (k <? 32) && Z.testbit g k.
Proof.
  intros Hs Hf Hk. unfold not_int, shl_int.
  rewrite testbit_to_uint, Z.lor_spec by lia.
  rewrite !testbit_to_uint, Z.land_spec by lia.
  rewrite testbit_to_uint, Z.lnot_spec by lia.
  destruct (Z.ltb_spec k 32) as [Hlt | Hge]; simpl.
  - rewrite !testbit_to_int_low by lia.
    rewrite !Z.shiftl_spec by lia.
    destruct (Z.leb_spec s k) as [Hsk | Hsk]; simpl.
    + rewrite Z.land_spec, Z.lnot_spec, testbit_7 by lia.
      destruct (Z.ltb_spec k (s + 3)) as [Hk3 | Hk3].
      * replace (k - s <? 3) with true by (symmetry; apply Z.ltb_lt; lia).
        destruct (Z.testbit g k), (Z.testbit f (k - s)); reflexivity.
      * replace (k - s <? 3) with false by (symmetry; apply Z.ltb_ge; lia).
        rewrite (testbit_3bits_high f (k - s)) by lia.
        destruct (Z.testbit g k); reflexivity.
    + rewrite !(Z.testbit_neg_r _ (k - s)) by lia.
      destruct (Z.testbit g k); reflexivity.
  - destruct ((s <=? k) && (k <? s + 3)) eqn:E; [| reflexivity].
    apply andb_true_iff in E. destruct E as [_ E]. apply Z.ltb_lt in E. lia.
Qed.

Lemma fsel_field_bits (g : Z -> Z) (q k : Z) :
  0 <= q -> 0 <= k ->
  Z.testbit (fsel_field g q) k
  = (k <? 3) && Z.testbit (g (q / 10)) (k + (q mod 10) * 3).
Proof.
  intros Hq Hk. unfold fsel_field.
  rewrite Z.land_spec, Z.shiftr_spec, testbit_7 by lia.
  apply andb_comm.
Qed.

Lemma pin_mode_gpio (p f : Z) (w : world) (i : Z) :
  0 <= p <= 53 ->
  gpio (pin_mode p f w) i
  = if i =? p / 10 then
      to_uint
        (Z.lor
           (to_uint
              (Z.land (gpio w (p / 10))
                 (to_uint
                    (not_int (shl_int (Z.land (not_int f) 7) ((p mod 10) * 3))))))
           (to_uint (shl_int f ((p mod 10) * 3))))
    else gpio w i.
Proof.
  intros Hp. unfold pin_mode.
  rewrite pin_accepted by lia.
  unfold pin_mode_update.
  rewrite pin_mode_offset, pin_mode_shift by lia.
  destruct ((f >? 7) || (f <? 0)); simpl; rewrite Z.eqb_refl;
    destruct (i =? p / 10); reflexivity.
Qed.

(** C5.  For a pin in [0,53] and a function in [0,7], [pin_mode] leaves
    the function in the 3-bit field of the pin (register pin/10, bit offset
    (pin%10)*3) and the field of every other pin as it was. *)
Theorem pin_mode_sets_field (p f : Z) (w : world) :
  0 <= p <= 53 -> 0 <= f <= 7 ->
  fsel_field (gpio (pin_mode p f w)) p = f /\
  (forall q, 0 <= q <= 53 -> q <> p ->
     fsel_field (gpio (pin_mode p f w)) q = fsel_field (gpio w) q).
Proof.
  intros Hp Hf.
  assert (Hm : 0 <= p mod 10 < 10) by (apply Z.mod_pos_bound; lia).
  split.
  - apply Z.bits_inj'. intros k Hk.
    rewrite fsel_field_bits, pin_mode_gpio, Z.eqb_refl by lia.
    rewrite pin_mode_word_bits by lia.
    destruct (Z.ltb_spec k 3) as [Hk3 | Hk3]; simpl.
    + replace ((p mod 10 * 3 <=? k + p mod 10 * 3)
               && (k + p mod 10 * 3 <? p mod 10 * 3 + 3)) with true.
      * f_equal. lia.
      * symmetry. apply andb_true_iff. split; [apply Z.leb_le | apply Z.ltb_lt]; lia.
    + symmetry. apply testbit_3bits_high; lia.
  - intros q Hq Hne.
    assert (Hmq : 0 <= q mod 10 < 10) by (apply Z.mod_pos_bound; lia).
    apply Z.bits_inj'. intros k Hk.
    rewrite !fsel_field_bits, pin_mode_gpio by lia.
    destruct (Z.ltb_spec k 3) as [Hk3 | Hk3]; simpl; [| reflexivity].
    destruct (Z.eqb_spec (q / 10) (p / 10)) as [Hreg | Hreg]; [| reflexivity].
    rewrite pin_mode_word_bits by lia.
    assert (Hmod : q mod 10 <> p mod 10).
    { intros E. apply Hne.
      rewrite (Z.div_mod q 10), (Z.div_mod p 10) by lia. lia. }
    replace ((p mod 10 * 3 <=? k + q mod 10 * 3)
             && (k + q mod 10 * 3 <? p mod 10 * 3 + 3)) with false.
    + replace (k + q mod 10 * 3 <? 32) with true
        by (symmetry; apply Z.ltb_lt; lia).
      rewrite Hreg. reflexivity.
    + symmetry. apply andb_false_iff.
      destruct (Z.lt_ge_cases (q mod 10) (p mod 10)).
      * left. apply Z.leb_gt. lia.
      * right. apply Z.ltb_ge. lia.
Qed.

Lemma pin_mode_sets_field_witness :
  fsel_field (gpio (pin_mode 17 OUTPUT blank_world)) 17 = OUTPUT /\
  (forall q, 0 <= q <= 53 -> q <> 17 ->
     fsel_field (gpio (pin_mode 17 OUTPUT blank_world)) q
     = fsel_field (gpio blank_world) q).
Proof.
  apply (pin_mode_sets_field 17 OUTPUT blank_world); unfold OUTPUT; lia.
Defined.

(** C4.  [pin_mode] checks its two arguments differently.  A pin outside
    [0,53] is reported and no register is stored to.  A function outside
    [0,7] for a pin in range is reported as well, and then the two
    read-modify-write stores are carried out all the same, with the
    rejected function value in them. *)
Theorem pin_mode_validation_asymmetric :
  (forall pin function w,
      pin < 0 \/ 53 < pin ->
      trace (pin_mode pin function w)
      = trace w ++ [Printf ("bad pin, got pin " ++ decimal pin ++ newline)%string]
      /\ stores_to GPIO (trace (pin_mode pin function w))
         = stores_to GPIO (trace w)
      /\ forall i, gpio (pin_mode pin function w) i = gpio w i)
  /\
  (forall pin function w,
      0 <= pin <= 53 -> function < 0 \/ 7 < function ->
      let offset := pin / 10 in
      let shift := (pin mod 10) * 3 in
      let cleared :=
        to_uint (Z.land (gpio w offset)
                   (to_uint (not_int (shl_int (Z.land (not_int function) 7) shift)))) in
      let merged :=
        to_uint (Z.lor cleared (to_uint (shl_int function shift))) in
      trace (pin_mode pin function w)
      = trace w
        ++ [Printf ("bad function, got function " ++ decimal function ++ newline)%string;
            Store GPIO offset cleared;
            Store GPIO offset merged]
      /\ gpio (pin_mode pin function w) offset = merged).
Proof.
  split.
  - intros pin function w Hpin. unfold pin_mode.
    rewrite pin_rejected by exact Hpin.
    destruct (printf_frame ("bad pin, got pin " ++ decimal pin ++ newline)%string w)
      as (Hstores & Hgpio & _).
    split; [reflexivity |]. split; [apply Hstores | exact Hgpio].
  - intros pin function w Hpin Hfun offset shift cleared merged.
    split.
    + unfold pin_mode. rewrite pin_accepted by exact Hpin.
      replace ((function >? 7) || (function <? 0)) with true
        by (destruct (Z.gtb_spec function 7), (Z.ltb_spec function 0);
            simpl; lia || reflexivity).
      unfold pin_mode_update.
      rewrite pin_mode_offset, pin_mode_shift by exact Hpin.
      unfold gpio_store, printf, emit; simpl.
      rewrite Z.eqb_refl.
      rewrite <- !app_assoc. reflexivity.
    + rewrite pin_mode_gpio by exact Hpin.
      unfold offset. rewrite Z.eqb_refl. reflexivity.
Qed.

Lemma pin_mode_validation_asymmetric_witness :
  (trace (pin_mode 54 OUTPUT blank_world)
   = [Printf ("bad pin, got pin 54" ++ newline)%string]
   /\ forall i, gpio (pin_mode 54 OUTPUT blank_world) i = 0)
  /\
  (trace (pin_mode 17 9 blank_world)
   = [Printf ("bad function, got function 9" ++ newline)%string;
      Store GPIO 1 0; Store GPIO 1 (9 * 2 ^ 21)]
   /\ gpio (pin_mode 17 9 blank_world) 1 = 9 * 2 ^ 21).
Proof.
  destruct pin_mode_validation_asymmetric as [Hpin Hfun].
  split.
  - destruct (Hpin 54 OUTPUT blank_world) as (Ht & _ & Hg); [lia |].
    split; [exact Ht | exact Hg].
  - apply (Hfun 17 9 blank_world); lia.
Defined.

(** C10.  A function code outside [0,7] reaches beyond the pin's own
    field: [pin_mode 0 8] reports the bad function and then turns the
    field of pin 1 from input (0) into output (1). *)
Theorem pin_mode_bad_function_spills :
  exists p f w q,
    0 <= p <= 53 /\ (f < 0 \/ 7 < f) /\ 0 <= q <= 53 /\ q <> p /\
    console (trace (pin_mode p f w))
    = [("bad function, got function " ++ decimal f ++ newline)%string] /\
    fsel_field (gpio w) q = INPUT /\
    fsel_field (gpio (pin_mode p f w)) q = OUTPUT.
Proof.
  exists 0, 8, blank_world, 1.
  repeat split; try lia; reflexivity.
Qed.

(** The word [0x1 << (pin % 32)] that [digital_write] stores. *)
Lemma digital_write_word (p : Z) :
  0 <= p <= 53 -> to_uint (shl_int 1 (rem_int p 32)) = 2 ^ (p mod 32).
Proof.
  intros Hp. unfold shl_int, rem_int.
  rewrite to_uint_to_int, Z.rem_mod_nonneg, Z.shiftl_1_l by lia.
  assert (Hm : 0 <= p mod 32 < 32) by (apply Z.mod_pos_bound; lia).
  apply to_uint_small. split.
  - apply Z.pow_nonneg. lia.
  - apply Z.pow_lt_mono_r; lia.
Qed.

(** C6.  For a pin in [0,53], [digital_write] with a true value performs
    one store, of the word whose only set bit is bit (pin mod 32), to the
    set register chosen by pin < 32 (word 7, else word 8), and leaves every
    other word, the other set register among them, alone; with a false
    value it does the same on the clear registers (word 10, else 11). *)
Theorem digital_write_single_bit (p : Z) (w : world) :
  0 <= p <= 53 ->
  let bit := 2 ^ (p mod 32) in
  let set := if p <? 32 then 7 else 8 in
  let other_set := if p <? 32 then 8 else 7 in
  let clr := if p <? 32 then 10 else 11 in
  let other_clr := if p <? 32 then 11 else 10 in
  (forall k, 0 <= k -> Z.testbit bit k = (k =? p mod 32))
  /\
  (forall val, val <> 0 ->
     trace (digital_write p val w) = trace w ++ [Store GPIO set bit]
     /\ gpio (digital_write p val w) set = bit
     /\ gpio (digital_write p val w) other_set = gpio w other_set
     /\ forall i, i <> set -> gpio (digital_write p val w) i = gpio w i)
  /\
  (trace (digital_write p 0 w) = trace w ++ [Store GPIO clr bit]
   /\ gpio (digital_write p 0 w) clr = bit
   /\ gpio (digital_write p 0 w) other_clr = gpio w other_clr
   /\ forall i, i <> clr -> gpio (digital_write p 0 w) i = gpio w i).
Proof.
  intros Hp bit set other_set clr other_clr.
  assert (Hm : 0 <= p mod 32 < 32) by (apply Z.mod_pos_bound; lia).
  split; [| split].
  - intros k Hk. unfold bit.
    destruct (Z.eqb_spec k (p mod 32)) as [-> | Hne].
    + apply Z.pow2_bits_true. lia.
    + apply Z.pow2_bits_false. congruence.
  - intros val Hval. unfold digital_write.
    rewrite pin_accepted by exact Hp.
    replace (val =? 0) with false by (symmetry; apply Z.eqb_neq; exact Hval).
    unfold gpio_store; simpl. fold set.
    rewrite digital_write_word by exact Hp. fold bit.
    rewrite Z.eqb_refl.
    repeat split.
    + unfold other_set, set. destruct (p <? 32); reflexivity.
    + intros i Hi. apply Z.eqb_neq in Hi. rewrite Hi. reflexivity.
  - unfold digital_write.
    rewrite pin_accepted by exact Hp.
    unfold gpio_store; simpl. fold clr.
    rewrite digital_write_word by exact Hp. fold bit.
    rewrite Z.eqb_refl.
    repeat split.
    + unfold other_clr, clr. destruct (p <? 32); reflexivity.
    + intros i Hi. apply Z.eqb_neq in Hi. rewrite Hi. reflexivity.
Qed.

Lemma digital_write_single_bit_witness :
  trace (digital_write 17 1 blank_world) = [Store GPIO 7 (2 ^ 17)]
  /\ trace (digital_write 40 0 blank_world) = [Store GPIO 11 (2 ^ 8)].
Proof.
  split.
  - destruct (digital_write_single_bit 17 blank_world) as (_ & Hset & _); [lia |].
    destruct (Hset 1) as (Ht & _); [lia | exact Ht].
  - destruct (digital_write_single_bit 40 blank_world) as (_ & _ & Ht & _); [lia |].
    exact Ht.
Defined.

(** ** Polling *)

Lemma await_ready (mask : Z) (tape : list Z) :
  count_ready mask tape <> O ->
  exists rest,
    await mask tape = Some rest /\
    count_ready mask tape = S (count_ready mask rest) /\
    (List.length rest < List.length tape)%nat.
Proof.
  induction tape as [| v tape IH]; simpl; intros H.
  - contradiction.
  - destruct (Z.land v mask =? 0).
    + destruct (IH H) as (rest & E & C & L).
      exists rest. repeat split; [exact E | exact C | lia].
    + exists tape. repeat split. lia.
Qed.

Lemma await_never (mask : Z) (tape : list Z) :
  count_ready mask tape = O -> await mask tape = None.
Proof.
  induction tape as [| v tape IH]; simpl; intros H.
  - reflexivity.
  - destruct (Z.land v mask =? 0); [exact (IH H) | discriminate].
Qed.

(** ** System timer *)

(** A sleep of a non-zero length arms compare register 1 with the counter
    plus the length, clears the match flag and returns once the status
    register shows the flag again. *)
Lemma sleep_micros_run (micros clo : Z) (w : world) (clo_rest : list Z) :
  micros <> 0 ->
  timer_clo w = clo :: clo_rest ->
  count_ready 0x2 (timer_cs w) <> O ->
  exists w',
    sleep_micros micros w = Ok tt w' /\
    trace w'
    = trace w ++ [Store TIMER 4 (to_uint (clo + to_uint micros)); Store TIMER 0 2].
Proof.
  intros Hm Hclo Hready.
  destruct (await_ready _ _ Hready) as (rest & E & _).
  unfold sleep_micros.
  replace (micros =? 0) with false by (symmetry; apply Z.eqb_neq; exact Hm).
  unfold bind, timer_load_clo, load. rewrite Hclo.
  unfold timer_store, lift, timer_await_cs, poll, emit; simpl.
  rewrite E. eexists. split; [reflexivity |].
  simpl. rewrite <- app_assoc. reflexivity.
Qed.

(** C9.  [sleep_micros 0] returns at once and leaves the machine as it
    found it: no timer register is stored to (nor loaded from).
    [sleep_millis d] is [sleep_micros] of the [int] product 1000 * d, which
    is the product itself whenever that fits an [int]. *)
Theorem sleep_zero_and_millis :
  (forall w, sleep_micros 0 w = Ok tt w)
  /\ (forall d w, sleep_millis d w = sleep_micros (mul_int 1000 d) w)
  /\ (forall d w, is_int (1000 * d) ->
        sleep_millis d w = sleep_micros (1000 * d) w).
Proof.
  split; [| split].
  - intros w. reflexivity.
  - intros d w. reflexivity.
  - intros d w Hd. unfold sleep_millis, mul_int.
    rewrite to_int_small by exact Hd. reflexivity.
Qed.

Lemma sleep_zero_and_millis_witness :
  sleep_micros 0 blank_world = Ok tt blank_world
  /\ sleep_millis 3 blank_world = sleep_micros 3000 blank_world.
Proof.
  destruct sleep_zero_and_millis as (Hzero & _ & Hmillis).
  split.
  - apply Hzero.
  - apply (Hmillis 3 blank_world). unfold is_int, INT_MIN, INT_MAX. lia.
Defined.

(** ** SPI transfers and the ADC read-out *)

Lemma spi_send_receive_run (send d : Z) (w : world) (fifo_rest : list Z) :
  count_ready 0x00010000 (spi0_cs w) <> O ->
  spi0_fifo w = d :: fifo_rest ->
  exists cs_rest,
    count_ready 0x00010000 (spi0_cs w)
    = S (count_ready 0x00010000 cs_rest) /\
    spi_send_receive send w
    = Ok (to_char d)
         (mkWorld (gpio w) (timer_cs w) (timer_clo w) cs_rest fifo_rest
                  (dev_mem_ok w) (mmap_ok w)
                  (trace w ++ [Store SPI0 1 (to_uint send)])).
Proof.
  intros Hready Hfifo.
  destruct (await_ready _ _ Hready) as (cs_rest & E & C & _).
  exists cs_rest. split; [exact C |].
  unfold spi_send_receive, bind, spi0_store, lift, spi0_await_cs, poll,
    spi0_load_fifo, load, emit.
  simpl. rewrite E. simpl. rewrite Hfifo. reflexivity.
Qed.

Lemma get_current_temp_run (d1 d2 : Z) (w : world) (fifo_rest : list Z) :
  (2 <= count_ready 0x00010000 (spi0_cs w))%nat ->
  spi0_fifo w = d1 :: d2 :: fifo_rest ->
  exists cs_rest,
    count_ready 0x00010000 (spi0_cs w)
    = S (S (count_ready 0x00010000 cs_rest)) /\
    get_current_temp w
    = Ok (adc_celsius (to_char d1) (to_char d2))
         (mkWorld (gpio w) (timer_cs w) (timer_clo w) cs_rest fifo_rest
                  (dev_mem_ok w) (mmap_ok w)
                  (trace w ++ [Store SPI0 1 0x68; Store SPI0 1 0x00])).
Proof.
  intros Hready Hfifo.
  destruct (spi_send_receive_run 0x68 d1 w (d2 :: fifo_rest))
    as (cs1 & C1 & E1); [lia | exact Hfifo |].
  match type of E1 with _ = Ok _ ?w1 =>
    destruct (spi_send_receive_run 0x00 d2 w1 fifo_rest)
      as (cs2 & C2 & E2); [simpl; lia | reflexivity |]
  end.
  exists cs2. split; [simpl in C2; lia |].
  unfold get_current_temp, bind. rewrite E1, E2. unfold ret. simpl.
  rewrite <- app_assoc. reflexivity.
Qed.

(** ** Exhaustive checks of the conversion *)

Lemma in_upto (n : nat) (z : Z) : 0 <= z < Z.of_nat n -> In z (upto n).
Proof.
  intros H. unfold upto. apply in_map_iff.
  exists (Z.to_nat z). split; [lia |].
  apply in_seq. lia.
Qed.

Lemma forallb_upto (P : Z -> bool) (n : nat) :
  forallb P (upto n) = true -> forall z, 0 <= z < Z.of_nat n -> P z = true.
Proof.
  intros H z Hz. rewrite forallb_forall in H. apply H, in_upto, Hz.
Qed.

Lemma celsius_exact_all :
  forallb (fun x => forallb (celsius_exact x) (upto 256)) (upto 4) = true.
Proof. vm_compute. reflexivity. Qed.

Lemma reading_exact_all :
  forallb (fun x => forallb (reading_exact x) (upto 256)) (upto 4) = true.
Proof. vm_compute. reflexivity. Qed.

Lemma reading_bounded_all :
  forallb (fun x => forallb (reading_bounded x) (upto 256)) (upto 4) = true.
Proof. vm_compute. reflexivity. Qed.

(** ** Integers in double precision *)

Lemma digits2_pos_bounds (p : positive) :
  2 ^ (Zpos (digits2_pos p) - 1) <= Zpos p < 2 ^ Zpos (digits2_pos p).
Proof.
  induction p as [p IH | p IH |]; simpl digits2_pos.
  - rewrite Pos2Z.inj_succ.
    replace (Z.succ (Zpos (digits2_pos p)) - 1) with (Z.succ (Zpos (digits2_pos p) - 1)) by lia.
    rewrite !Z.pow_succ_r by lia. lia.
  - rewrite Pos2Z.inj_succ.
    replace (Z.succ (Zpos (digits2_pos p)) - 1) with (Z.succ (Zpos (digits2_pos p) - 1)) by lia.
    rewrite !Z.pow_succ_r by lia. lia.
  - simpl. lia.
Qed.

Lemma digits2_pos_iter_xO (p j : positive) :
  digits2_pos (Pos.iter xO p j) = (digits2_pos p + j)%positive.
Proof.
  induction j as [| j IH] using Pos.peano_ind.
  - simpl. lia.
  - rewrite Pos.iter_succ. simpl. rewrite IH. lia.
Qed.

Lemma iter_xO_value (p j : positive) :
  Zpos (Pos.iter xO p j) = Zpos p * 2 ^ Zpos j.
Proof.
  induction j as [| j IH] using Pos.peano_ind.
  - simpl. lia.
  - rewrite Pos.iter_succ, Pos2Z.inj_xO, IH, Pos2Z.inj_succ, Z.pow_succ_r by lia.
    lia.
Qed.

Lemma shr_fexp_canonical (m : positive) (e : Z) :
  Zpos (digits2_pos m) = 53 -> -1074 <= e ->
  shr_fexp dbl_prec dbl_emax (Zpos m) e loc_Exact
  = (Build_shr_record (Zpos m) false false, e).
Proof.
  intros Hd He. unfold shr_fexp, fexp, emin, dbl_prec, dbl_emax.
  simpl Zdigits2. rewrite Hd.
  replace (Z.max (53 + e - 53) (3 - 1024 - 53) - e) with 0 by lia.
  reflexivity.
Qed.

(** An integer of fewer than 53 bits converts to the mantissa made of its
    bits, shifted up to 53 digits. *)
Lemma double_of_Z_pos (p : positive) :
  Zpos (digits2_pos p) < 53 ->
  double_of_Z (Zpos p)
  = S754_finite false (Pos.iter xO p (53 - digits2_pos p))
                (Zpos (digits2_pos p) - 53).
Proof.
  intros Hd.
  assert (Hf : fexp dbl_prec dbl_emax (Zpos (digits2_pos p) + 0)
               = Zpos (digits2_pos p) - 53)
    by (unfold fexp, emin, dbl_prec, dbl_emax; lia).
  unfold double_of_Z, binary_normalize, binary_round, shl_align.
  rewrite Hf.
  replace (Zpos (digits2_pos p) - 53 - 0) with (Zneg (53 - digits2_pos p)) by lia.
  unfold binary_round_aux.
  rewrite shr_fexp_canonical.
  - simpl round_nearest_even. rewrite shr_fexp_canonical.
    + simpl shr_m.
      replace (Zpos (digits2_pos p) - 53 <=? dbl_emax - dbl_prec) with true.
      * reflexivity.
      * symmetry. apply Z.leb_le. unfold dbl_emax, dbl_prec. lia.
    + rewrite digits2_pos_iter_xO. lia.
    + lia.
  - rewrite digits2_pos_iter_xO. lia.
  - lia.
Qed.

Lemma digits2_pos_small (p : positive) :
  Zpos p < 2 ^ 52 -> Zpos (digits2_pos p) < 53.
Proof.
  intros Hp. destruct (Z.lt_ge_cases (Zpos (digits2_pos p)) 53) as [H | H].
  - exact H.
  - pose proof (digits2_pos_bounds p) as [Hlow _].
    assert (2 ^ 52 <= 2 ^ (Zpos (digits2_pos p) - 1))
      by (apply Z.pow_le_mono_r; lia).
    lia.
Qed.

Lemma trunc_double_of_Z (n : Z) :
  0 <= n < 2 ^ 52 -> trunc_double (double_of_Z n) = n.
Proof.
  intros Hn. destruct n as [| p | p]; [reflexivity | | lia].
  pose proof (digits2_pos_small p (proj2 Hn)) as Hd.
  rewrite double_of_Z_pos by exact Hd.
  unfold trunc_double.
  replace (0 <=? Zpos (digits2_pos p) - 53) with false
    by (symmetry; apply Z.leb_gt; lia).
  replace (- (Zpos (digits2_pos p) - 53)) with (Zpos (53 - digits2_pos p)) by lia.
  rewrite iter_xO_value. apply Z.div_mul.
  apply Z.pow_nonzero; lia.
Qed.

(** On such integers the comparison of doubles is the comparison of
    integers. *)
Lemma SFcompare_double_of_Z (a b : Z) :
  0 <= a < 2 ^ 52 -> 0 <= b < 2 ^ 52 ->
  SFcompare (double_of_Z a) (double_of_Z b) = Some (a ?= b).
Proof.
  intros Ha Hb.
  destruct a as [| p | p], b as [| q | q]; try lia; try reflexivity.
  - rewrite (double_of_Z_pos q) by (apply digits2_pos_small; lia). reflexivity.
  - rewrite (double_of_Z_pos p) by (apply digits2_pos_small; lia). reflexivity.
  - pose proof (digits2_pos_small p (proj2 Ha)) as Hdp.
    pose proof (digits2_pos_small q (proj2 Hb)) as Hdq.
    pose proof (digits2_pos_bounds p) as [Hpl Hpu].
    pose proof (digits2_pos_bounds q) as [Hql Hqu].
    rewrite !double_of_Z_pos by assumption.
    unfold SFcompare. f_equal.
    destruct (Z.compare_spec (Zpos (digits2_pos p) - 53) (Zpos (digits2_pos q) - 53))
      as [He | He | He].
    + assert (Ed : digits2_pos p = digits2_pos q) by lia.
      rewrite Ed.
      change (Pos.compare_cont Eq ?x ?y) with (Zpos x ?= Zpos y).
      rewrite !iter_xO_value.
      assert (Hpow : 0 < 2 ^ Zpos (53 - digits2_pos q))
        by (apply Z.pow_pos_nonneg; lia).
      destruct (Z.compare_spec (Zpos p) (Zpos q)) as [E | E | E].
      * rewrite E. apply Z.compare_refl.
      * apply Z.compare_lt_iff. apply Z.mul_lt_mono_pos_r; assumption.
      * apply Z.compare_gt_iff. apply Z.mul_lt_mono_pos_r; assumption.
    + symmetry. apply Z.compare_lt_iff.
      assert (2 ^ Zpos (digits2_pos p) <= 2 ^ (Zpos (digits2_pos q) - 1))
        by (apply Z.pow_le_mono_r; lia).
      lia.
    + symmetry. apply Z.compare_gt_iff.
      assert (2 ^ Zpos (digits2_pos q) <= 2 ^ (Zpos (digits2_pos p) - 1))
        by (apply Z.pow_le_mono_r; lia).
      lia.
Qed.

(** [fmax] on two [size_t] values, converted to [double] and back, is
    their maximum: nothing is lost on the way. *)
Lemma fmax_size_t (a b : Z) :
  0 <= a < 2 ^ 32 -> 0 <= b < 2 ^ 32 ->
  size_t_of_double (fmax (double_of_Z a) (double_of_Z b)) = Z.max a b.
Proof.
  intros Ha Hb. unfold size_t_of_double, fmax.
  rewrite SFcompare_double_of_Z by lia.
  unfold Z.max.
  destruct (Z.compare_spec a b) as [E | E | E];
    rewrite trunc_double_of_Z by lia; apply to_uint_small; lia.
Qed.

(** ** The control step *)

Lemma await_some (mask : Z) (tape rest : list Z) :
  await mask tape = Some rest ->
  count_ready mask tape = S (count_ready mask rest).
Proof.
  induction tape as [| v tape IH]; simpl; intros H.
  - discriminate.
  - destruct (Z.land v mask =? 0).
    + exact (IH H).
    + injection H as ->. reflexivity.
Qed.

Lemma spi_send_receive_inv (send v : Z) (w w' : world) :
  spi_send_receive send w = Ok v w' ->
  exists d fifo_rest,
    spi0_fifo w = d :: fifo_rest /\ count_ready 0x00010000 (spi0_cs w) <> O.
Proof.
  unfold spi_send_receive, bind, spi0_store, lift, spi0_await_cs, poll,
    spi0_load_fifo, load, emit. simpl.
  destruct (await 65536 (spi0_cs w)) as [cs_rest |] eqn:E; [| discriminate].
  simpl. destruct (spi0_fifo w) as [| d fifo_rest]; [discriminate |].
  intros _. exists d, fifo_rest. split; [reflexivity |].
  rewrite (await_some _ _ _ E). discriminate.
Qed.

Lemma get_current_temp_inv (t : double) (w w' : world) :
  get_current_temp w = Ok t w' ->
  exists d1 d2 fifo_rest,
    spi0_fifo w = d1 :: d2 :: fifo_rest /\
    (2 <= count_ready 0x00010000 (spi0_cs w))%nat.
Proof.
  unfold get_current_temp, bind.
  destruct (spi_send_receive 104 w) as [one w1 | |] eqn:E1; try discriminate.
  destruct (spi_send_receive 0 w1) as [two w2 | |] eqn:E2; try discriminate.
  intros _.
  destruct (spi_send_receive_inv _ _ _ _ E1) as (d1 & rest1 & F1 & R1).
  destruct (spi_send_receive_run 104 d1 w rest1 R1 F1) as (cs1 & C1 & E1').
  rewrite E1 in E1'. injection E1' as _ ->.
  destruct (spi_send_receive_inv _ _ _ _ E2) as (d2 & rest2 & F2 & R2).
  simpl in F2, R2.
  exists d1, d2, rest2. split.
  - rewrite F1, F2. reflexivity.
  - lia.
Qed.

(** What one step does once the reading is known. *)
Lemma check_temp_body_run (cur : Z) (c : control) (w : world) :
  let reported :=
    if cur =? last_temp c then w
    else
      let w1 := printf ("current temp: " ++ decimal cur ++ newline)%string w in
      if target_temp c <=? cur then
        printf ("overshoot: "
                  ++ decimal (to_uint (overshoot c - target_temp c))
                  ++ newline)%string w1
      else w1 in
  check_temp_body cur c w
  = Ok (mkControl (target_temp c) cur
          (size_t_of_double
             (fmax (double_of_Z cur) (double_of_Z (overshoot c)))))
       (digital_write CONTROLPIN (if cur <? target_temp c then 1 else 0)
          reported).
Proof.
  unfold check_temp_body, bind, lift, ret.
  destruct (Z.eqb_spec cur (last_temp c)) as [E | E]; simpl.
  - rewrite <- E. destruct c as [t l o]; simpl in *. subst l.
    destruct (cur <? t); reflexivity.
  - destruct (target_temp c <=? cur); simpl;
      destruct (cur <? target_temp c); reflexivity.
Qed.

Lemma check_temp_run (c : control) (w : world) (d1 d2 : Z) (fifo_rest : list Z) :
  (2 <= count_ready 0x00010000 (spi0_cs w))%nat ->
  spi0_fifo w = d1 :: d2 :: fifo_rest ->
  exists cs_rest,
    count_ready 0x00010000 (spi0_cs w)
    = S (S (count_ready 0x00010000 cs_rest)) /\
    check_temp c w
    = check_temp_body (reading d1 d2) c
        (mkWorld (gpio w) (timer_cs w) (timer_clo w) cs_rest fifo_rest
                 (dev_mem_ok w) (mmap_ok w)
                 (trace w ++ [Store SPI0 1 0x68; Store SPI0 1 0x00])).
Proof.
  intros Hready Hfifo.
  destruct (get_current_temp_run d1 d2 w fifo_rest Hready Hfifo)
    as (cs_rest & C & E).
  exists cs_rest. split; [exact C |].
  unfold check_temp, bind. rewrite E. reflexivity.
Qed.

Lemma land_3_range (b : Z) : 0 <= Z.land b 0x03 < 4.
Proof.
  change 0x03 with (Z.ones 2). rewrite Z.land_ones by lia.
  apply Z.mod_pos_bound. lia.
Qed.

Lemma to_char_range (z : Z) : 0 <= to_char z < 256.
Proof. unfold to_char. apply Z.mod_pos_bound. lia. Qed.

(** Only the two low bits of the first byte count. *)
Lemma adc_response_low_bits (b1 b2 : Z) :
  adc_response b1 b2 = adc_response (Z.land b1 0x03) b2.
Proof.
  unfold adc_response. rewrite <- Z.land_assoc. reflexivity.
Qed.

Lemma celsius_formula_low_bits (b1 b2 : Z) :
  celsius_formula b1 b2 = celsius_formula (Z.land b1 0x03) b2.
Proof.
  unfold celsius_formula. rewrite <- Z.land_assoc. reflexivity.
Qed.

(** The double that [get_current_temp] computes is the number the formula
    denotes: none of the three floating-point operations rounds. *)
Lemma adc_celsius_exact (b1 b2 : Z) :
  0 <= b2 < 256 ->
  exists q,
    double_value (adc_celsius b1 b2) = Some q /\
    (q == celsius_formula b1 b2)%Q.
Proof.
  intros Hb2.
  pose proof (forallb_upto _ _ celsius_exact_all (Z.land b1 0x03) (land_3_range b1)) as H.
  pose proof (forallb_upto _ _ H b2 Hb2) as Hx.
  unfold celsius_exact in Hx.
  unfold adc_celsius. rewrite adc_response_low_bits, celsius_formula_low_bits.
  fold (adc_celsius (Z.land b1 0x03) b2).
  destruct (double_value (adc_celsius (Z.land b1 0x03) b2)) as [q |];
    [| discriminate].
  exists q. split; [reflexivity |].
  apply Qeq_bool_iff. exact Hx.
Qed.

(** The truncated reading: the sample times 625 / 4096, fraction dropped;
    it never exceeds 156. *)
Lemma reading_value (d1 d2 : Z) :
  reading d1 d2 = adc_response (to_char d1) (to_char d2) * 625 / 4096
  /\ 0 <= reading d1 d2 <= 156.
Proof.
  pose proof (forallb_upto _ _ reading_exact_all
                (Z.land (to_char d1) 0x03) (land_3_range _)) as H.
  pose proof (forallb_upto _ _ H (to_char d2) (to_char_range d2)) as Hx.
  pose proof (forallb_upto _ _ reading_bounded_all
                (Z.land (to_char d1) 0x03) (land_3_range _)) as H'.
  pose proof (forallb_upto _ _ H' (to_char d2) (to_char_range d2)) as Hy.
  unfold reading_exact in Hx. apply Z.eqb_eq in Hx.
  unfold reading_bounded in Hy. apply andb_true_iff in Hy.
  destruct Hy as [Hy1 Hy2]. apply Z.leb_le in Hy1, Hy2.
  unfold reading, adc_celsius.
  rewrite adc_response_low_bits.
  fold (adc_celsius (Z.land (to_char d1) 0x03) (to_char d2)).
  split; [exact Hx | lia].
Qed.

(** C3.  When the SPI block completes the two transfers and its data
    register yields the words [d1] and [d2], [get_current_temp] sends the
    command bytes 0x68 and 0x00 and returns the double whose value is
    31.25 x ((((b1 & 0x03) << 8) | b2) x 5 / 1024), [b1] and [b2] being
    the two bytes received. *)
Theorem get_current_temp_formula
  (w : world) (d1 d2 : Z) (fifo_rest : list Z) :
  (2 <= count_ready 0x00010000 (spi0_cs w))%nat ->
  spi0_fifo w = d1 :: d2 :: fifo_rest ->
  exists t w' q,
    get_current_temp w = Ok t w' /\
    stores_to SPI0 (trace w')
    = stores_to SPI0 (trace w) ++ [(1, 0x68); (1, 0x00)] /\
    double_value t = Some q /\
    (q == celsius_formula (to_char d1) (to_char d2))%Q.
Proof.
  intros Hready Hfifo.
  destruct (get_current_temp_run d1 d2 w fifo_rest Hready Hfifo)
    as (cs_rest & _ & E).
  destruct (adc_celsius_exact (to_char d1) (to_char d2) (to_char_range d2))
    as (q & Hq & Hv).
  eexists _, _, q. split; [exact E |]. split; [| split].
  - simpl. rewrite stores_to_app. reflexivity.
  - exact Hq.
  - exact Hv.
Qed.

Lemma get_current_temp_formula_witness :
  exists t w' q,
    get_current_temp (spi_world [1; 39]) = Ok t w' /\
    stores_to SPI0 (trace w') = [(1, 0x68); (1, 0x00)] /\
    double_value t = Some q /\
    (q == celsius_formula 1 39)%Q.
Proof.
  apply (get_current_temp_formula (spi_world [1; 39]) 1 39 []).
  - simpl. lia.
  - reflexivity.
Defined.

(** ** The control loop *)

(** C1.  Target 50, readings 45, 45, 52, 52, 49.  The heater pin is set,
    set, cleared, cleared, set.  One overshoot line is printed, in the turn
    where the reading first is 52; it reads 4294967291 and not 2: the
    maximum still is 45 when the line is printed, and 45 - 50 wraps around
    in [size_t]. *)
Theorem scenario_heater_and_report :
  let r := control_loop 5 (mkControl 50 0 0) (spi_world scenario_fifo) in
  readings scenario_fifo = [45; 45; 52; 52; 49]
  /\ value_of r = Some (mkControl 50 49 52)
  /\ stores_to GPIO (trace (world_of r))
     = [(7, 2 ^ 17); (7, 2 ^ 17); (10, 2 ^ 17); (10, 2 ^ 17); (7, 2 ^ 17)]
  /\ console (trace (world_of r))
     = [("current temp: 45" ++ newline)%string;
        ("current temp: 52" ++ newline)%string;
        ("overshoot: 4294967291" ++ newline)%string;
        ("current temp: 49" ++ newline)%string]
  /\ console (trace (world_of (control_loop 2 (mkControl 50 0 0)
                                 (spi_world scenario_fifo))))
     = [("current temp: 45" ++ newline)%string].
Proof. vm_compute. repeat split. Qed.

Lemma console_printf (s : string) (w : world) :
  console (trace (printf s w)) = console (trace w) ++ [s].
Proof. apply printf_frame. Qed.

Lemma digital_write_frame (p v : Z) (w : world) :
  console (trace (digital_write p v w))
  = console (trace w)
    ++ (if (p >? 53) || (p <? 0)
        then [("bad pin, got pin " ++ decimal p ++ newline)%string] else [])
  /\ spi0_fifo (digital_write p v w) = spi0_fifo w
  /\ spi0_cs (digital_write p v w) = spi0_cs w.
Proof.
  unfold digital_write.
  destruct ((p >? 53) || (p <? 0)); [| destruct (negb (v =? 0))];
    simpl; rewrite console_app; simpl; auto using app_nil_r.
Qed.

(** The two lines of a turn whose reading is new and at or above the
    target: the reading, and the overshoot with the difference taken in
    [size_t], that is modulo 2^32, and printed unsigned. *)
Lemma check_temp_overshoot_line
  (c : control) (w : world) (d1 d2 : Z) (fifo_rest : list Z) :
  (2 <= count_ready 0x00010000 (spi0_cs w))%nat ->
  spi0_fifo w = d1 :: d2 :: fifo_rest ->
  reading d1 d2 <> last_temp c ->
  target_temp c <= reading d1 d2 ->
  console (trace (world_of (check_temp c w)))
  = console (trace w)
    ++ [("current temp: " ++ decimal (reading d1 d2) ++ newline)%string;
        ("overshoot: "
           ++ decimal ((overshoot c - target_temp c) mod 2 ^ 32)
           ++ newline)%string].
Proof.
  intros Hready Hfifo Hnew Hhot.
  destruct (check_temp_run c w d1 d2 fifo_rest Hready Hfifo) as (cs & _ & E).
  rewrite E, check_temp_body_run. cbv zeta.
  replace (reading d1 d2 =? last_temp c) with false
    by (symmetry; apply Z.eqb_neq; exact Hnew).
  replace (target_temp c <=? reading d1 d2) with true
    by (symmetry; apply Z.leb_le; exact Hhot).
  unfold world_of.
  match goal with |- context [digital_write CONTROLPIN ?v ?x] =>
    destruct (digital_write_frame CONTROLPIN v x) as (Hc & _) end.
  rewrite Hc, !console_printf.
  replace ((CONTROLPIN >? 53) || (CONTROLPIN <? 0)) with false by reflexivity.
  cbn [trace]. rewrite console_app. cbn [console].
  rewrite !app_nil_r, <- !app_assoc. reflexivity.
Qed.

(** C2.  In a turn whose reading is new and at or above the target, the
    overshoot line does not carry overshoot minus target when the maximum
    has not reached the target yet.  Target 50, last reading and maximum
    45, reading 52: the difference is -5, the line printed reads
    4294967291, and no line with -5 is printed. *)
Theorem overshoot_report_wraps :
  let c := mkControl 50 45 45 in
  let w := spi_world [1; 85] in
  reading 1 85 = 52
  /\ reading 1 85 <> last_temp c
  /\ target_temp c <= reading 1 85
  /\ overshoot c - target_temp c = -5
  /\ console (trace (world_of (check_temp c w)))
     = [("current temp: 52" ++ newline)%string;
        ("overshoot: 4294967291" ++ newline)%string]
  /\ ~ In ("overshoot: " ++ decimal (overshoot c - target_temp c) ++ newline)%string
          (console (trace (world_of (check_temp c w)))).
Proof.
  cbv zeta.
  assert (Hconsole :
            console (trace (world_of
                      (check_temp (mkControl 50 45 45) (spi_world [1; 85]))))
            = [("current temp: 52" ++ newline)%string;
               ("overshoot: 4294967291" ++ newline)%string])
    by (vm_compute; reflexivity).
  split; [vm_compute; reflexivity |].
  split; [vm_compute; discriminate |].
  split; [vm_compute; discriminate |].
  split; [reflexivity |].
  split; [exact Hconsole |].
  rewrite Hconsole. vm_compute.
  intros [E | [E | []]]; discriminate E.
Qed.

(** ** The running maximum *)

Lemma fold_max_ge_init (l : list Z) (a : Z) : a <= fold_left Z.max l a.
Proof.
  revert a. induction l as [| r l IH]; intros a; simpl.
  - lia.
  - specialize (IH (Z.max a r)). lia.
Qed.

Lemma fold_max_ge_elem (l : list Z) (a r : Z) :
  In r l -> r <= fold_left Z.max l a.
Proof.
  revert a. induction l as [| r' l IH]; intros a H; simpl.
  - contradiction.
  - destruct H as [-> | H].
    + pose proof (fold_max_ge_init l (Z.max a r)). lia.
    + apply IH, H.
Qed.

Lemma fold_max_attained (l : list Z) (a : Z) :
  fold_left Z.max l a = a \/ In (fold_left Z.max l a) l.
Proof.
  revert a. induction l as [| r l IH]; intros a; simpl.
  - left. reflexivity.
  - destruct (IH (Z.max a r)) as [E | H].
    + rewrite E. destruct (Z.max_spec a r) as [[_ ->] | [_ ->]]; auto.
    + right. right. exact H.
Qed.

Lemma In_firstn (n : nat) (l : list Z) (x : Z) :
  In x (firstn n l) -> In x l.
Proof.
  intros H. rewrite <- (firstn_skipn n l). apply in_or_app. left. exact H.
Qed.

Lemma readings_range (fifo : list Z) (r : Z) :
  In r (readings fifo) -> 0 <= r <= 156.
Proof.
  assert (H : forall (n : nat) (l : list Z),
             (List.length l <= n)%nat -> In r (readings l) -> 0 <= r <= 156).
  { induction n as [| n IH]; intros l Hlen Hin.
    - destruct l; [contradiction | simpl in Hlen; lia].
    - destruct l as [| d1 [| d2 rest]]; simpl in Hin; try contradiction.
      destruct Hin as [<- | Hin].
      + apply reading_value.
      + apply (IH rest); [simpl in Hlen; lia | exact Hin]. }
  apply (H (List.length fifo)). lia.
Qed.

Lemma Ok_inj {A : Type} (a a' : A) (w w' : world) :
  Ok a w = Ok a' w' -> a = a' /\ w = w'.
Proof. intros H. injection H as -> ->. split; reflexivity. Qed.

(** One step: the two data words are used up and the maximum takes the
    reading in. *)
Lemma check_temp_step (c c' : control) (w w' : world) :
  0 <= overshoot c < 2 ^ 32 ->
  check_temp c w = Ok c' w' ->
  exists d1 d2 fifo_rest,
    spi0_fifo w = d1 :: d2 :: fifo_rest /\
    spi0_fifo w' = fifo_rest /\
    overshoot c' = Z.max (overshoot c) (reading d1 d2).
Proof.
  intros Hov H.
  assert (Hget : exists t w1, get_current_temp w = Ok t w1).
  { unfold check_temp, bind in H.
    destruct (get_current_temp w) as [t w1 | |]; try discriminate. eauto. }
  destruct Hget as (t & w1 & Hget).
  destruct (get_current_temp_inv _ _ _ Hget) as (d1 & d2 & rest & Hfifo & Hready).
  destruct (check_temp_run c w d1 d2 rest Hready Hfifo) as (cs & _ & E).
  rewrite E, check_temp_body_run in H. cbv zeta in H.
  apply Ok_inj in H. destruct H as [Hc Hw]. subst c' w'.
  exists d1, d2, rest. split; [exact Hfifo |]. split.
  - match goal with |- spi0_fifo (digital_write ?p ?v ?x) = _ =>
      destruct (digital_write_frame p v x) as (_ & -> & _) end.
    destruct (reading d1 d2 =? last_temp c); [reflexivity |].
    destruct (target_temp c <=? reading d1 d2); reflexivity.
  - cbn [overshoot]. pose proof (reading_value d1 d2) as [_ Hr].
    rewrite fmax_size_t by lia. apply Z.max_comm.
Qed.

(** The maximum after [n] turns that have run to their end. *)
Lemma overshoot_after_turns (n : nat) (c c' : control) (w w' : world) :
  0 <= overshoot c < 2 ^ 32 ->
  control_loop n c w = Ok c' w' ->
  List.length (firstn n (readings (spi0_fifo w))) = n
  /\ overshoot c'
     = fold_left Z.max (firstn n (readings (spi0_fifo w))) (overshoot c).
Proof.
  revert c w. induction n as [| n IH]; intros c w Hov Hrun.
  - apply Ok_inj in Hrun. destruct Hrun as [<- _]. split; reflexivity.
  - cbn [control_loop] in Hrun. unfold bind in Hrun.
    destruct (check_temp c w) as [c1 w1 | |] eqn:Hstep; try discriminate.
    destruct (check_temp_step c c1 w w1 Hov Hstep)
      as (d1 & d2 & rest & Hfifo & Hrest & Hmax).
    pose proof (reading_value d1 d2) as [_ Hr].
    destruct (IH c1 w1) as (Hlen & Hfold); [lia | exact Hrun |].
    rewrite Hfifo. cbn [readings firstn List.length fold_left].
    rewrite <- Hmax, <- Hrest. split; [f_equal; exact Hlen | exact Hfold].
Qed.

Lemma fold_max_firstn_mono (l : list Z) (a : Z) (k n : nat) :
  (k <= n)%nat ->
  fold_left Z.max (firstn k l) a <= fold_left Z.max (firstn n l) a.
Proof.
  revert a k n. induction l as [| r l IH]; intros a k n Hkn.
  - rewrite !firstn_nil. cbn [fold_left]. lia.
  - destruct k as [| k].
    + cbn [firstn fold_left]. apply fold_max_ge_init.
    + destruct n as [| n]; [lia |].
      cbn [firstn fold_left]. apply IH. lia.
Qed.

(** The loop keeps going as long as the SPI block completes its
    transfers: [n] turns need two completed transfers and two data words
    each. *)
Lemma control_loop_runs (n : nat) (c : control) (w : world) :
  (2 * n <= count_ready 0x00010000 (spi0_cs w))%nat ->
  (2 * n <= List.length (spi0_fifo w))%nat ->
  exists c' w', control_loop n c w = Ok c' w'.
Proof.
  revert c w. induction n as [| n IH]; intros c w Hready Hfifo.
  - exists c, w. reflexivity.
  - destruct (spi0_fifo w) as [| d1 [| d2 rest]] eqn:F; simpl in Hfifo; try lia.
    destruct (check_temp_run c w d1 d2 rest) as (cs & C & E); [lia | exact F |].
    simpl. unfold bind. rewrite E, check_temp_body_run. cbv zeta.
    apply IH.
    + match goal with |- context [spi0_cs (digital_write ?p ?v ?x)] =>
        destruct (digital_write_frame p v x) as (_ & _ & ->) end.
      replace (spi0_cs _) with cs.
      * lia.
      * destruct (reading d1 d2 =? last_temp c); [reflexivity |].
        destruct (target_temp c <=? reading d1 d2); reflexivity.
    + match goal with |- context [spi0_fifo (digital_write ?p ?v ?x)] =>
        destruct (digital_write_frame p v x) as (_ & -> & _) end.
      replace (spi0_fifo _) with rest.
      * lia.
      * destruct (reading d1 d2 =? last_temp c); [reflexivity |].
        destruct (target_temp c <=? reading d1 d2); reflexivity.
Qed.

(** C7.  As long as the SPI block completes its transfers, the turns of
    the loop run to their end, and every turn replaces the overshoot by
    the maximum of itself and the turn's reading.  So after [n] turns the
    overshoot is the maximum of its initial value and the readings seen;
    it never decreases, neither over the whole run nor from any earlier
    turn to the last; it bounds every reading seen; and from its initial
    value 0 it is, after the first turn and ever after, the largest
    reading seen so far. *)
Theorem overshoot_running_maximum (n : nat) (c : control) (w : world) :
  0 <= overshoot c < 2 ^ 32 ->
  (2 * n <= count_ready 0x00010000 (spi0_cs w))%nat ->
  (2 * n <= List.length (spi0_fifo w))%nat ->
  let seen := firstn n (readings (spi0_fifo w)) in
  exists c' w',
    control_loop n c w = Ok c' w'
    /\ List.length seen = n
    /\ overshoot c' = fold_left Z.max seen (overshoot c)
    /\ overshoot c <= overshoot c'
    /\ (forall r, In r seen -> r <= overshoot c')
    /\ (overshoot c = 0 -> n <> O -> In (overshoot c') seen)
    /\ (forall k, (k <= n)%nat ->
          exists ck wk,
            control_loop k c w = Ok ck wk
            /\ overshoot ck
               = fold_left Z.max (firstn k (readings (spi0_fifo w))) (overshoot c)
            /\ overshoot ck <= overshoot c').
Proof.
  intros Hov Hready Hfifo seen.
  destruct (control_loop_runs n c w Hready Hfifo) as (c' & w' & Hrun).
  destruct (overshoot_after_turns n c c' w w' Hov Hrun) as (Hlen & Hfold).
  fold seen in Hlen, Hfold.
  exists c', w'. split; [exact Hrun |].
  split; [exact Hlen |]. split; [exact Hfold |]. split; [| split; [| split]].
  - rewrite Hfold. apply fold_max_ge_init.
  - intros r Hr. rewrite Hfold. apply fold_max_ge_elem, Hr.
  - intros Hzero Hn. rewrite Hfold, Hzero.
    destruct (fold_max_attained seen 0) as [E | H]; [| exact H].
    rewrite E. destruct seen as [| r seen'] eqn:Hseen.
    + cbn [List.length] in Hlen. congruence.
    + left.
      assert (Hle : r <= 0)
        by (rewrite <- E; apply fold_max_ge_elem; left; reflexivity).
      assert (Hge : 0 <= r <= 156).
      { apply (readings_range (spi0_fifo w)).
        apply (In_firstn n). fold seen. rewrite Hseen. left. reflexivity. }
      lia.
  - intros k Hk.
    destruct (control_loop_runs k c w) as (ck & wk & Hrunk); [lia | lia |].
    destruct (overshoot_after_turns k c ck w wk Hov Hrunk) as (_ & Hfoldk).
    exists ck, wk. split; [exact Hrunk |]. split; [exact Hfoldk |].
    rewrite Hfoldk, Hfold. apply fold_max_firstn_mono. exact Hk.
Qed.

Lemma overshoot_running_maximum_witness :
  let seen := firstn 5 (readings (spi0_fifo (spi_world scenario_fifo))) in
  exists c' w',
    control_loop 5 (mkControl 50 0 0) (spi_world scenario_fifo) = Ok c' w'
    /\ List.length seen = 5%nat
    /\ overshoot c' = fold_left Z.max seen (overshoot (mkControl 50 0 0))
    /\ overshoot (mkControl 50 0 0) <= overshoot c'
    /\ (forall r, In r seen -> r <= overshoot c')
    /\ (overshoot (mkControl 50 0 0) = 0 -> 5%nat <> O -> In (overshoot c') seen)
    /\ (forall k, (k <= 5)%nat ->
          exists ck wk,
            control_loop k (mkControl 50 0 0) (spi_world scenario_fifo) = Ok ck wk
            /\ overshoot ck
               = fold_left Z.max
                   (firstn k (readings (spi0_fifo (spi_world scenario_fifo))))
                   (overshoot (mkControl 50 0 0))
            /\ overshoot ck <= overshoot c').
Proof.
  apply (overshoot_running_maximum 5 (mkControl 50 0 0) (spi_world scenario_fifo)).
  - cbn [overshoot]. lia.
  - simpl. lia.
  - simpl. lia.
Defined.

(** ** The command line *)

Lemma target_check (v : Z) :
  (v >? 70) || (v <? 30) = negb ((30 <=? v) && (v <=? 70)).
Proof.
  destruct (Z.gtb_spec v 70), (Z.ltb_spec v 30), (Z.leb_spec 30 v),
    (Z.leb_spec v 70); simpl; lia || reflexivity.
Qed.

Lemma main_valid_target (n : nat) (prog arg : string) (w : world) :
  30 <= to_uint (strtol arg) <= 70 ->
  main n [prog; arg] w
  = (pio_init ;;
     spi_init 244000 0 ;;
     lift (pin_mode CONTROLPIN OUTPUT) ;;
     control_loop n (mkControl (to_uint (strtol arg)) 0 0)) w.
Proof.
  intros Hin. unfold main.
  cbn [List.length Z.of_nat Pos.of_succ_nat Pos.succ Z.eqb Pos.eqb negb nth].
  rewrite target_check.
  replace ((30 <=? to_uint (strtol arg)) && (to_uint (strtol arg) <=? 70))
    with true
    by (symmetry; apply andb_true_iff; split; apply Z.leb_le; lia).
  reflexivity.
Qed.

(** C8.  Anything but exactly one argument: the usage text and exit code
    1.  One argument whose value lies outside [30,70]: the validation text
    and exit code 2, the machine being left as it was but for the text.
    One argument whose value lies in [30,70], 30 and 70 included: [main]
    goes on to map the GPIO block, set up the SPI master, make the control
    pin an output and run the loop on that target. *)
Theorem main_argument_checks (n : nat) (w : world) :
  (forall argv,
      List.length argv <> 2%nat ->
      main n argv w
      = Exit 1
          (printf (tab ++ "./temp_control temperature" ++ newline)%string
             (printf ("Incorrect call to temp_control. The correct format is"
                        ++ newline)%string w)))
  /\
  (forall prog arg,
      to_uint (strtol arg) < 30 \/ 70 < to_uint (strtol arg) ->
      exists w',
        main n [prog; arg] w = Exit 2 w'
        /\ console (trace w')
           = console (trace w)
             ++ [("Invalid temperature parameter. Please choose a temperature"
                    ++ "between 30 and 70" ++ newline)%string]
        /\ (forall d, stores_to d (trace w') = stores_to d (trace w))
        /\ (forall i, gpio w' i = gpio w i))
  /\
  (forall prog arg,
      30 <= to_uint (strtol arg) <= 70 ->
      main n [prog; arg] w
      = (pio_init ;;
         spi_init 244000 0 ;;
         lift (pin_mode CONTROLPIN OUTPUT) ;;
         control_loop n (mkControl (to_uint (strtol arg)) 0 0)) w).
Proof.
  split; [| split].
  - intros argv Hlen. unfold main.
    replace (Z.of_nat (List.length argv) =? 2) with false
      by (symmetry; apply Z.eqb_neq; lia).
    reflexivity.
  - intros prog arg Hout. unfold main.
    cbn [List.length Z.of_nat Pos.of_succ_nat Pos.succ Z.eqb Pos.eqb negb nth].
    replace ((to_uint (strtol arg) >? 70) || (to_uint (strtol arg) <? 30))
      with true
      by (destruct (Z.gtb_spec (to_uint (strtol arg)) 70),
                   (Z.ltb_spec (to_uint (strtol arg)) 30);
          simpl; lia || reflexivity).
    eexists. split; [reflexivity |].
    match goal with |- context [printf ?s w] =>
      destruct (printf_frame s w) as (Hstores & Hgpio & Hconsole) end.
    split; [exact Hconsole |]. split; [exact Hstores | exact Hgpio].
  - intros prog arg Hin. unfold main.
    cbn [List.length Z.of_nat Pos.of_succ_nat Pos.succ Z.eqb Pos.eqb negb nth].
    replace ((to_uint (strtol arg) >? 70) || (to_uint (strtol arg) <? 30))
      with false
      by (destruct (Z.gtb_spec (to_uint (strtol arg)) 70),
                   (Z.ltb_spec (to_uint (strtol arg)) 30);
          simpl; lia || reflexivity).
    reflexivity.
Qed.

Lemma main_argument_checks_witness :
  main 0 ["./temp_control"; "50"; "60"] blank_world
  = Exit 1
      (printf (tab ++ "./temp_control temperature" ++ newline)%string
         (printf ("Incorrect call to temp_control. The correct format is"
                    ++ newline)%string blank_world))
  /\ (exists w',
        main 0 ["./temp_control"; "80"] blank_world = Exit 2 w'
        /\ console (trace w')
           = [("Invalid temperature parameter. Please choose a temperature"
                 ++ "between 30 and 70" ++ newline)%string]
        /\ (forall d, stores_to d (trace w') = [])
        /\ (forall i, gpio w' i = 0))
  /\ value_of (main 0 ["./temp_control"; "50"] (spi_world []))
     = Some (mkControl 50 0 0)
  /\ value_of (main 0 ["./temp_control"; "30"] (spi_world []))
     = Some (mkControl 30 0 0)
  /\ value_of (main 0 ["./temp_control"; "70"] (spi_world []))
     = Some (mkControl 70 0 0).
Proof.
  destruct (main_argument_checks 0 (spi_world [])) as (_ & _ & Hin).
  destruct (main_argument_checks 0 blank_world) as (Hargc & Hout & _).
  split; [| split; [| split; [| split]]].
  - apply Hargc. simpl. lia.
  - apply (Hout "./temp_control" "80"). vm_compute. right. reflexivity.
  - rewrite Hin by (vm_compute; split; discriminate). reflexivity.
  - rewrite Hin by (vm_compute; split; discriminate). reflexivity.
  - rewrite Hin by (vm_compute; split; discriminate). reflexivity.
Defined.

(** Setting the mode of a pin leaves the SPI tapes and the console
    alone. *)
Lemma pin_mode_frame (p f : Z) (w : world) :
  0 <= p <= 53 -> 0 <= f <= 7 ->
  spi0_cs (pin_mode p f w) = spi0_cs w
  /\ stores_to SPI0 (trace (pin_mode p f w)) = stores_to SPI0 (trace w)
  /\ console (trace (pin_mode p f w)) = console (trace w).
Proof.
  intros Hp Hf. unfold pin_mode. rewrite pin_accepted by exact Hp.
  replace ((f >? 7) || (f <? 0)) with false
    by (destruct (Z.gtb_spec f 7), (Z.ltb_spec f 0); simpl; lia || reflexivity).
  unfold pin_mode_update, gpio_store. cbn [spi0_cs trace].
  rewrite !stores_to_app, !console_app. cbn [stores_to console device_eqb].
  rewrite !app_nil_r. repeat split.
Qed.

Lemma map_block_ok (name : string) (w : world) :
  dev_mem_ok w = true -> mmap_ok w = true -> map_block name w = Ok tt w.
Proof. intros H1 H2. unfold map_block. rewrite H1, H2. reflexivity. Qed.

Lemma spi0_cs_emit (e : event) (w : world) : spi0_cs (emit e w) = spi0_cs w.
Proof. reflexivity. Qed.

Lemma spi0_load_cs_run (w : world) (cs0 : Z) (cs_rest : list Z) :
  spi0_cs w = cs0 :: cs_rest ->
  spi0_load_cs w = Ok cs0 (with_spi0_cs cs_rest w).
Proof. intros H. unfold spi0_load_cs, load. rewrite H. reflexivity. Qed.

(** With /dev/mem at hand and an SPI block that answers, [spi_init] puts
    pins 8 to 11 into their SPI function and stores the clock divider, the
    settings word and the settings with the transfer-active bit. *)
Lemma spi_init_run (freq settings : Z) (w : world) (cs0 : Z) (cs_rest : list Z) :
  dev_mem_ok w = true -> mmap_ok w = true ->
  spi0_cs w = cs0 :: cs_rest ->
  spi_init freq settings w
  = Ok tt
      (emit (Store SPI0 0 (to_uint (Z.lor cs0 0x00000080)))
         (with_spi0_cs cs_rest
            (emit (Store SPI0 0 (to_uint settings))
               (emit (Store SPI0 2 (to_uint (div_int 250000000 freq)))
                  (pin_mode 11 ALT0
                     (pin_mode 10 ALT0
                        (pin_mode 9 ALT0 (pin_mode 8 ALT0 w)))))))).
Proof.
  intros Hopen Hmap Hcs.
  assert (Hpins : spi0_cs (pin_mode 11 ALT0 (pin_mode 10 ALT0
                     (pin_mode 9 ALT0 (pin_mode 8 ALT0 w)))) = cs0 :: cs_rest).
  { destruct (pin_mode_frame 8 ALT0 w) as (A1 & _); [lia | unfold ALT0; lia |].
    destruct (pin_mode_frame 9 ALT0 (pin_mode 8 ALT0 w)) as (A2 & _);
      [lia | unfold ALT0; lia |].
    destruct (pin_mode_frame 10 ALT0 (pin_mode 9 ALT0 (pin_mode 8 ALT0 w)))
      as (A3 & _); [lia | unfold ALT0; lia |].
    destruct (pin_mode_frame 11 ALT0
                (pin_mode 10 ALT0 (pin_mode 9 ALT0 (pin_mode 8 ALT0 w))))
      as (A4 & _); [lia | unfold ALT0; lia |].
    congruence. }
  unfold spi_init, bind.
  rewrite map_block_ok by assumption.
  unfold lift, spi0_store, lift.
  rewrite (spi0_load_cs_run _ cs0 cs_rest)
    by (rewrite !spi0_cs_emit; exact Hpins).
  reflexivity.
Qed.

Lemma trace_emit (e : event) (w : world) : trace (emit e w) = trace w ++ [e].
Proof. reflexivity. Qed.

Lemma trace_with_spi0_cs (l : list Z) (w : world) :
  trace (with_spi0_cs l w) = trace w.
Proof. reflexivity. Qed.

(** With /dev/mem at hand and an SPI block that answers, a valid target
    takes [main] into the loop: the clock divider 250000000 / 244000 =
    1024, the settings word 0 and the transfer-active bit have been stored
    to the SPI block, and nothing has been printed. *)
Lemma main_enters_loop (prog arg : string) (w : world) (cs0 : Z) (cs_rest : list Z) :
  dev_mem_ok w = true -> mmap_ok w = true ->
  spi0_cs w = cs0 :: cs_rest ->
  30 <= to_uint (strtol arg) <= 70 ->
  exists w',
    main 0 [prog; arg] w = Ok (mkControl (to_uint (strtol arg)) 0 0) w'
    /\ stores_to SPI0 (trace w')
       = stores_to SPI0 (trace w)
         ++ [(2, 1024); (0, 0); (0, to_uint (Z.lor cs0 0x00000080))]
    /\ console (trace w') = console (trace w).
Proof.
  intros Hopen Hmap Hcs Hin.
  rewrite main_valid_target by exact Hin.
  unfold bind at 1. unfold pio_init. rewrite map_block_ok by assumption.
  unfold bind at 1. rewrite (spi_init_run _ _ w cs0 cs_rest) by assumption.
  unfold bind, lift. cbn [control_loop]. unfold ret.
  eexists. split; [reflexivity |].
  match goal with
  | |- stores_to SPI0 (trace (pin_mode ?p ?f ?x)) = _ /\ _ =>
      destruct (pin_mode_frame p f x) as (_ & B & C);
        [unfold CONTROLPIN; lia | unfold OUTPUT; lia |]
  end.
  rewrite B, C.
  rewrite !trace_emit, trace_with_spi0_cs, !trace_emit.
  destruct (pin_mode_frame 8 ALT0 w) as (_ & B1 & C1); [lia | unfold ALT0; lia |].
  destruct (pin_mode_frame 9 ALT0 (pin_mode 8 ALT0 w)) as (_ & B2 & C2);
    [lia | unfold ALT0; lia |].
  destruct (pin_mode_frame 10 ALT0 (pin_mode 9 ALT0 (pin_mode 8 ALT0 w)))
    as (_ & B3 & C3); [lia | unfold ALT0; lia |].
  destruct (pin_mode_frame 11 ALT0
              (pin_mode 10 ALT0 (pin_mode 9 ALT0 (pin_mode 8 ALT0 w))))
    as (_ & B4 & C4); [lia | unfold ALT0; lia |].
  rewrite !stores_to_app, !console_app, B4, B3, B2, B1, C4, C3, C2, C1.
  cbn [stores_to console device_eqb].
  rewrite !app_nil_r, <- !app_assoc. split; reflexivity.
Qed.

(** * Further properties of the helpers and of the loop *)

(** ** GPIO *)

Lemma land_1_testbit (x : Z) : Z.land x 1 = Z.b2z (Z.testbit x 0).
Proof.
  change 1 with (Z.ones 1). rewrite Z.land_ones by lia.
  rewrite Z.bit0_mod. reflexivity.
Qed.

(** X1.  A pin outside [0,53] is refused by [digital_write] and by
    [digital_read] alike: one "bad pin" line is printed, no register is
    stored to, the GPIO words stay as they are, and [digital_read] returns
    0 whatever the level registers hold. *)
Theorem bad_pin_refused (pin val : Z) (w : world) :
  pin < 0 \/ 53 < pin ->
  let refused := printf ("bad pin, got pin " ++ decimal pin ++ newline)%string w in
  digital_write pin val w = refused
  /\ digital_read pin w = (0, refused)
  /\ (forall d, stores_to d (trace refused) = stores_to d (trace w))
  /\ (forall i, gpio refused i = gpio w i).
Proof.
  intros Hpin refused.
  unfold digital_write, digital_read. rewrite pin_rejected by exact Hpin.
  destruct (printf_frame ("bad pin, got pin " ++ decimal pin ++ newline)%string w)
    as (Hstores & Hgpio & _).
  repeat split; assumption.
Qed.

Lemma bad_pin_refused_witness :
  digital_write 54 1 blank_world
  = printf ("bad pin, got pin 54" ++ newline)%string blank_world
  /\ digital_read (-1) blank_world
     = (0, printf ("bad pin, got pin -1" ++ newline)%string blank_world).
Proof.
  split.
  - apply (bad_pin_refused 54 1 blank_world). lia.
  - apply (bad_pin_refused (-1) 0 blank_world). lia.
Defined.

(** X2.  For a pin in [0,53], [digital_read] returns bit (pin mod 32) of
    the level word 13 (pins 0 to 31) or 14 (pins 32 to 53), as 0 or 1, and
    leaves the machine as it found it. *)
Theorem digital_read_level_bit (pin : Z) (w : world) :
  0 <= pin <= 53 ->
  digital_read pin w
  = (Z.b2z (Z.testbit (gpio w (if pin <? 32 then 13 else 14)) (pin mod 32)), w).
Proof.
  intros Hpin. unfold digital_read. rewrite pin_accepted by exact Hpin.
  destruct (Z.ltb_spec pin 32) as [Hlow | Hhigh].
  - rewrite land_1_testbit, Z.shiftr_spec by lia.
    rewrite Z.mod_small by lia. rewrite Z.add_0_l.
    rewrite to_int_small; [reflexivity |].
    unfold INT_MIN, INT_MAX. destruct (Z.testbit (gpio w 13) pin); simpl; lia.
  - rewrite land_1_testbit, Z.shiftr_spec by lia.
    replace (pin mod 32) with (pin - 32).
    + rewrite Z.add_0_l.
      rewrite to_int_small; [reflexivity |].
      unfold INT_MIN, INT_MAX.
      destruct (Z.testbit (gpio w 14) (pin - 32)); simpl; lia.
    + apply Z.mod_unique with (q := 1); lia.
Qed.

Lemma digital_read_level_bit_witness :
  digital_read 40 (gpio_store 14 (2 ^ 8) blank_world)
  = (1, gpio_store 14 (2 ^ 8) blank_world).
Proof.
  apply (digital_read_level_bit 40 (gpio_store 14 (2 ^ 8) blank_world)). lia.
Defined.

(** The word of register pin/10 after [pin_mode], bit by bit. *)
Lemma pin_mode_register_bits (p f : Z) (w : world) (k : Z) :
  0 <= p <= 53 -> 0 <= f <= 7 -> 0 <= k ->
  Z.testbit (gpio (pin_mode p f w) (p / 10)) k
  = if ((p mod 10) * 3 <=? k) && (k <? (p mod 10) * 3 + 3)
    then Z.testbit f (k - (p mod 10) * 3)
    else (k <? 32) && Z.testbit (gpio w (p / 10)) k.
Proof.
  intros Hp Hf Hk.
  assert (Hm : 0 <= p mod 10 < 10) by (apply Z.mod_pos_bound; lia).
  rewrite pin_mode_gpio, Z.eqb_refl by exact Hp.
  apply pin_mode_word_bits; lia.
Qed.

Lemma pin_mode_other_register (p f : Z) (w : world) (i : Z) :
  0 <= p <= 53 -> i <> p / 10 -> gpio (pin_mode p f w) i = gpio w i.
Proof.
  intros Hp Hi. rewrite pin_mode_gpio by exact Hp.
  apply Z.eqb_neq in Hi. rewrite Hi. reflexivity.
Qed.

(** X3.  Of two [pin_mode] calls on the same pin the later one decides:
    the registers end up as if the earlier call had not been made. *)
Theorem pin_mode_last_wins (p f g : Z) (w : world) :
  0 <= p <= 53 -> 0 <= f <= 7 -> 0 <= g <= 7 ->
  forall i, gpio (pin_mode p g (pin_mode p f w)) i = gpio (pin_mode p g w) i.
Proof.
  intros Hp Hf Hg i.
  assert (Hm : 0 <= p mod 10 < 10) by (apply Z.mod_pos_bound; lia).
  destruct (Z.eq_dec i (p / 10)) as [-> | Hi].
  - apply Z.bits_inj'. intros k Hk.
    rewrite !pin_mode_register_bits by assumption.
    destruct ((p mod 10 * 3 <=? k) && (k <? p mod 10 * 3 + 3)); [reflexivity |].
    destruct (k <? 32); reflexivity.
  - rewrite !pin_mode_other_register by assumption. reflexivity.
Qed.

Lemma pin_mode_last_wins_witness :
  gpio (pin_mode 17 OUTPUT (pin_mode 17 ALT0 blank_world)) 1
  = gpio (pin_mode 17 OUTPUT blank_world) 1.
Proof.
  apply (pin_mode_last_wins 17 ALT0 OUTPUT blank_world);
    unfold ALT0, OUTPUT; lia.
Defined.

(** X4.  [pin_mode] calls on two different pins do not get in each other's
    way: either order leaves the same words in the registers. *)
Theorem pin_mode_commutes (p q f g : Z) (w : world) :
  0 <= p <= 53 -> 0 <= q <= 53 -> p <> q ->
  0 <= f <= 7 -> 0 <= g <= 7 ->
  forall i,
    gpio (pin_mode p f (pin_mode q g w)) i
    = gpio (pin_mode q g (pin_mode p f w)) i.
Proof.
  intros Hp Hq Hne Hf Hg i.
  assert (Hmp : 0 <= p mod 10 < 10) by (apply Z.mod_pos_bound; lia).
  assert (Hmq : 0 <= q mod 10 < 10) by (apply Z.mod_pos_bound; lia).
  destruct (Z.eq_dec (p / 10) (q / 10)) as [Hreg | Hreg].
  - destruct (Z.eq_dec i (p / 10)) as [-> | Hi].
    + assert (Hmod : p mod 10 <> q mod 10).
      { intros E. apply Hne.
        rewrite (Z.div_mod p 10), (Z.div_mod q 10) by lia. lia. }
      apply Z.bits_inj'. intros k Hk.
      rewrite pin_mode_register_bits by assumption.
      rewrite Hreg.
      rewrite !pin_mode_register_bits by assumption.
      rewrite <- Hreg.
      rewrite pin_mode_register_bits by assumption.
      destruct (Z.leb_spec (p mod 10 * 3) k), (Z.ltb_spec k (p mod 10 * 3 + 3)),
        (Z.leb_spec (q mod 10 * 3) k), (Z.ltb_spec k (q mod 10 * 3 + 3)),
        (Z.ltb_spec k 32); simpl; try reflexivity; try lia.
    + assert (Hiq : i <> q / 10) by congruence.
      rewrite (pin_mode_other_register p) by assumption.
      rewrite !(pin_mode_other_register q) by assumption.
      rewrite (pin_mode_other_register p) by assumption.
      reflexivity.
  - destruct (Z.eq_dec i (p / 10)) as [-> | Hip].
    + rewrite (pin_mode_other_register q g (pin_mode p f w)) by assumption.
      apply Z.bits_inj'. intros k Hk.
      rewrite !pin_mode_register_bits by assumption.
      rewrite (pin_mode_other_register q) by assumption. reflexivity.
    + rewrite (pin_mode_other_register p) by assumption.
      destruct (Z.eq_dec i (q / 10)) as [-> | Hiq].
      * apply Z.bits_inj'. intros k Hk.
        rewrite !pin_mode_register_bits by assumption.
        rewrite (pin_mode_other_register p) by assumption. reflexivity.
      * rewrite !(pin_mode_other_register q) by assumption.
        rewrite (pin_mode_other_register p) by assumption. reflexivity.
Qed.

Lemma pin_mode_commutes_witness :
  gpio (pin_mode 8 ALT0 (pin_mode 9 OUTPUT blank_world)) 0
  = gpio (pin_mode 9 OUTPUT (pin_mode 8 ALT0 blank_world)) 0.
Proof.
  apply (pin_mode_commutes 8 9 ALT0 OUTPUT blank_world);
    unfold ALT0, OUTPUT; lia.
Defined.

(** ** Waiting for a status bit *)

Lemma land_pow2_eqb (v n : Z) :
  0 <= n -> (Z.land v (2 ^ n) =? 0) = negb (Z.testbit v n).
Proof.
  intros Hn. destruct (Z.testbit v n) eqn:Hb; simpl.
  - apply Z.eqb_neq. intros E.
    assert (Hbit : Z.testbit (Z.land v (2 ^ n)) n = true)
      by (rewrite Z.land_spec, Hb, Z.pow2_bits_true by lia; reflexivity).
    rewrite E, Z.bits_0 in Hbit. discriminate.
  - apply Z.eqb_eq. apply Z.bits_inj'. intros k Hk.
    rewrite Z.land_spec, Z.bits_0.
    destruct (Z.eq_dec k n) as [-> | Hne].
    + rewrite Hb. reflexivity.
    + rewrite Z.pow2_bits_false by congruence. apply andb_false_r.
Qed.

(** The loop steps over the words that do not show the bit and stops
    behind the first one that does. *)
Lemma await_first_ready (n : Z) (idle : list Z) (hit : Z) (rest : list Z) :
  0 <= n ->
  Forall (fun v => Z.testbit v n = false) idle ->
  Z.testbit hit n = true ->
  await (2 ^ n) (idle ++ hit :: rest) = Some rest.
Proof.
  intros Hn Hidle Hhit.
  induction Hidle as [| v idle Hv _ IH]; simpl.
  - rewrite land_pow2_eqb, Hhit by exact Hn. reflexivity.
  - rewrite land_pow2_eqb, Hv by exact Hn. exact IH.
Qed.

Lemma await_all_idle (n : Z) (tape : list Z) :
  0 <= n ->
  Forall (fun v => Z.testbit v n = false) tape ->
  await (2 ^ n) tape = None.
Proof.
  intros Hn Hidle.
  induction Hidle as [| v tape Hv _ IH]; simpl.
  - reflexivity.
  - rewrite land_pow2_eqb, Hv by exact Hn. exact IH.
Qed.

(** ** System timer, continued *)

Lemma compare_value (clo micros : Z) :
  to_uint (clo + to_uint micros) = (clo + micros) mod 2 ^ 32.
Proof. unfold to_uint. apply Zplus_mod_idemp_r. Qed.

(** X5.  A sleep of non-zero length loads the counter once, stores
    (counter + length) mod 2^32 to compare register 1 (word 4), clears the
    match flag M1 by storing 2 to the status word, and returns behind the
    first status word that shows M1 again; it stores to nothing else and
    prints nothing. *)
Theorem sleep_micros_waits_for_match
  (micros clo hit : Z) (idle cs_rest clo_rest : list Z) (w : world) :
  micros <> 0 ->
  timer_clo w = clo :: clo_rest ->
  timer_cs w = idle ++ hit :: cs_rest ->
  Forall (fun v => Z.testbit v 1 = false) idle ->
  Z.testbit hit 1 = true ->
  exists w',
    sleep_micros micros w = Ok tt w'
    /\ trace w'
       = trace w ++ [Store TIMER 4 ((clo + micros) mod 2 ^ 32); Store TIMER 0 2]
    /\ timer_clo w' = clo_rest
    /\ timer_cs w' = cs_rest
    /\ (forall i, gpio w' i = gpio w i).
Proof.
  intros Hm Hclo Hcs Hidle Hhit.
  unfold sleep_micros.
  replace (micros =? 0) with false by (symmetry; apply Z.eqb_neq; exact Hm).
  unfold bind, timer_load_clo, load. rewrite Hclo.
  unfold timer_store, lift, timer_await_cs, poll, emit, with_timer_clo.
  cbn [timer_cs]. rewrite Hcs.
  pose proof (await_first_ready 1 idle hit cs_rest) as E.
  change (2 ^ 1) with 2 in E. rewrite E by (assumption || lia).
  eexists. split; [reflexivity |].
  unfold with_timer_cs.
  cbn [trace timer_clo timer_cs gpio].
  rewrite compare_value, <- app_assoc.
  repeat split.
Qed.

Lemma sleep_micros_waits_for_match_witness :
  exists w',
    sleep_micros 1000 (timer_world 5 [0; 4; 2; 0]) = Ok tt w'
    /\ trace w' = [Store TIMER 4 ((5 + 1000) mod 2 ^ 32); Store TIMER 0 2]
    /\ timer_clo w' = []
    /\ timer_cs w' = [0]
    /\ (forall i, gpio w' i = 0).
Proof.
  apply (sleep_micros_waits_for_match 1000 5 2 [0; 4] [0] [] (timer_world 5 [0; 4; 2; 0])).
  - lia.
  - reflexivity.
  - reflexivity.
  - repeat constructor.
  - reflexivity.
Defined.

(** X6.  There is no timeout: when the status word never shows M1, a sleep
    of non-zero length has armed the compare register and cleared the flag,
    and then never returns. *)
Theorem sleep_micros_hangs_without_match
  (micros clo : Z) (clo_rest : list Z) (w : world) :
  micros <> 0 ->
  timer_clo w = clo :: clo_rest ->
  Forall (fun v => Z.testbit v 1 = false) (timer_cs w) ->
  exists w',
    sleep_micros micros w = Hang w'
    /\ trace w'
       = trace w ++ [Store TIMER 4 ((clo + micros) mod 2 ^ 32); Store TIMER 0 2].
Proof.
  intros Hm Hclo Hidle.
  unfold sleep_micros.
  replace (micros =? 0) with false by (symmetry; apply Z.eqb_neq; exact Hm).
  unfold bind, timer_load_clo, load. rewrite Hclo.
  unfold timer_store, lift, timer_await_cs, poll, emit, with_timer_clo.
  cbn [timer_cs].
  pose proof (await_all_idle 1 (timer_cs w)) as E.
  change (2 ^ 1) with 2 in E. rewrite E by (assumption || lia).
  eexists. split; [reflexivity |].
  unfold with_timer_cs. cbn [trace].
  rewrite compare_value, <- app_assoc. reflexivity.
Qed.

Lemma sleep_micros_hangs_without_match_witness :
  exists w',
    sleep_micros (-1) (timer_world 5 [0; 4; 0]) = Hang w'
    /\ trace w' = [Store TIMER 4 4; Store TIMER 0 2].
Proof.
  apply (sleep_micros_hangs_without_match (-1) 5 [] (timer_world 5 [0; 4; 0])).
  - lia.
  - reflexivity.
  - repeat constructor.
Defined.

(** ** SPI transfers, continued *)

(** X7.  One transfer stores the byte to send to the data register once,
    steps over the status words without the DONE bit (bit 16), and behind
    the first one with it loads the data register once: the result is the
    low 8 bits of that word, a value in [0,255].  It consumes one data
    word and touches no GPIO word. *)
Theorem spi_send_receive_transfer
  (send d ready : Z) (idle cs_rest fifo_rest : list Z) (w : world) :
  spi0_cs w = idle ++ ready :: cs_rest ->
  Forall (fun v => Z.testbit v 16 = false) idle ->
  Z.testbit ready 16 = true ->
  spi0_fifo w = d :: fifo_rest ->
  exists w',
    spi_send_receive send w = Ok (d mod 256) w'
    /\ 0 <= d mod 256 < 256
    /\ trace w' = trace w ++ [Store SPI0 1 (send mod 2 ^ 32)]
    /\ spi0_cs w' = cs_rest
    /\ spi0_fifo w' = fifo_rest
    /\ (forall i, gpio w' i = gpio w i).
Proof.
  intros Hcs Hidle Hready Hfifo.
  unfold spi_send_receive, bind, spi0_store, lift, spi0_await_cs, poll, emit.
  cbn [spi0_cs]. rewrite Hcs.
  pose proof (await_first_ready 16 idle ready cs_rest) as E.
  change (2 ^ 16) with 0x00010000 in E. rewrite E by (assumption || lia).
  unfold spi0_load_fifo, load, with_spi0_cs. cbn [spi0_fifo]. rewrite Hfifo.
  eexists. split; [reflexivity |].
  split; [apply Z.mod_pos_bound; lia |].
  unfold with_spi0_fifo. cbn [trace spi0_cs spi0_fifo gpio].
  repeat split.
Qed.

Lemma spi_send_receive_transfer_witness :
  exists w',
    spi_send_receive 0x68 (spi_world [0x127]) = Ok (0x127 mod 256) w'
    /\ 0 <= 0x127 mod 256 < 256
    /\ trace w' = [Store SPI0 1 (0x68 mod 2 ^ 32)]
    /\ spi0_cs w' = [0x00010000]
    /\ spi0_fifo w' = []
    /\ (forall i, gpio w' i = 0).
Proof.
  apply (spi_send_receive_transfer 0x68 0x127 0x00010000 [] [0x00010000] []
           (spi_world [0x127])).
  - reflexivity.
  - constructor.
  - reflexivity.
  - reflexivity.
Defined.

(** X8.  There is no timeout here either: when the status word never shows
    DONE, the byte has been stored to the data register and the transfer
    never returns; the data register is not loaded from. *)
Theorem spi_send_receive_hangs_without_done (send : Z) (w : world) :
  Forall (fun v => Z.testbit v 16 = false) (spi0_cs w) ->
  exists w',
    spi_send_receive send w = Hang w'
    /\ trace w' = trace w ++ [Store SPI0 1 (send mod 2 ^ 32)]
    /\ spi0_fifo w' = spi0_fifo w.
Proof.
  intros Hidle.
  unfold spi_send_receive, bind, spi0_store, lift, spi0_await_cs, poll, emit.
  cbn [spi0_cs].
  pose proof (await_all_idle 16 (spi0_cs w)) as E.
  change (2 ^ 16) with 0x00010000 in E. rewrite E by (assumption || lia).
  eexists. split; [reflexivity |].
  unfold with_spi0_cs. cbn [trace spi0_fifo]. split; reflexivity.
Qed.

Lemma spi_send_receive_hangs_without_done_witness :
  exists w',
    spi_send_receive 0x68 blank_world = Hang w'
    /\ trace w' = [Store SPI0 1 (0x68 mod 2 ^ 32)]
    /\ spi0_fifo w' = [].
Proof.
  apply (spi_send_receive_hangs_without_done 0x68 blank_world).
  constructor.
Defined.

(** ** Pin functions after the initialisation *)

(** The function-select field of any pin after [pin_mode]. *)
Lemma fsel_field_pin_mode (p f q : Z) (w : world) :
  0 <= p <= 53 -> 0 <= f <= 7 -> 0 <= q <= 53 ->
  fsel_field (gpio (pin_mode p f w)) q
  = if q =? p then f else fsel_field (gpio w) q.
Proof.
  intros Hp Hf Hq.
  assert (Hmp : 0 <= p mod 10 < 10) by (apply Z.mod_pos_bound; lia).
  assert (Hmq : 0 <= q mod 10 < 10) by (apply Z.mod_pos_bound; lia).
  destruct (Z.eqb_spec q p) as [-> | Hne].
  - apply Z.bits_inj'. intros k Hk.
    rewrite fsel_field_bits, pin_mode_register_bits by lia.
    destruct (Z.ltb_spec k 3) as [Hk3 | Hk3]; cbn [andb].
    + destruct (Z.leb_spec (p mod 10 * 3) (k + p mod 10 * 3)),
        (Z.ltb_spec (k + p mod 10 * 3) (p mod 10 * 3 + 3));
        cbn [andb]; try lia.
      f_equal. lia.
    + symmetry. apply testbit_3bits_high; lia.
  - destruct (Z.eq_dec (q / 10) (p / 10)) as [Hreg | Hreg].
    + assert (Hmod : q mod 10 <> p mod 10).
      { intros E. apply Hne.
        rewrite (Z.div_mod q 10), (Z.div_mod p 10) by lia. lia. }
      apply Z.bits_inj'. intros k Hk.
      rewrite !fsel_field_bits by lia. rewrite Hreg.
      destruct (Z.ltb_spec k 3) as [Hk3 | Hk3]; cbn [andb]; [| reflexivity].
      rewrite pin_mode_register_bits by lia.
      destruct (Z.leb_spec (p mod 10 * 3) (k + q mod 10 * 3)),
        (Z.ltb_spec (k + q mod 10 * 3) (p mod 10 * 3 + 3)),
        (Z.ltb_spec (k + q mod 10 * 3) 32);
        cbn [andb]; try lia; reflexivity.
    + unfold fsel_field. rewrite pin_mode_other_register by assumption.
      reflexivity.
Qed.

Lemma gpio_emit (e : event) (w : world) : gpio (emit e w) = gpio w.
Proof. reflexivity. Qed.

Lemma gpio_with_spi0_cs (l : list Z) (w : world) :
  gpio (with_spi0_cs l w) = gpio w.
Proof. reflexivity. Qed.

(** The four pins of the SPI block in their alternate function 0. *)
Lemma fsel_field_spi_pins (q : Z) (w : world) :
  0 <= q <= 53 ->
  fsel_field
    (gpio (pin_mode 11 ALT0 (pin_mode 10 ALT0
             (pin_mode 9 ALT0 (pin_mode 8 ALT0 w))))) q
  = if (8 <=? q) && (q <=? 11) then ALT0 else fsel_field (gpio w) q.
Proof.
  intros Hq.
  rewrite !fsel_field_pin_mode by (unfold ALT0; lia).
  destruct (Z.eqb_spec q 11), (Z.eqb_spec q 10), (Z.eqb_spec q 9),
    (Z.eqb_spec q 8), (Z.leb_spec 8 q), (Z.leb_spec q 11);
    cbn [andb]; try lia; reflexivity.
Qed.

(** X9.  With /dev/mem mapped, a non-zero frequency and a control word
    [cs0] read back, [spi_init] stores three words to the SPI block and no others: the
    clock divider 250000000 / freq (truncated) to word 2, the settings to
    word 0, and the word read back with the transfer-active bit 7 set to
    word 0.  Pins 8 to 11 end up in alternate function 0, every other pin
    keeps its function, and nothing is printed. *)
Theorem spi_init_configures
  (freq settings cs0 : Z) (cs_rest : list Z) (w : world) :
  freq <> 0 ->
  dev_mem_ok w = true -> mmap_ok w = true ->
  spi0_cs w = cs0 :: cs_rest ->
  exists w',
    spi_init freq settings w = Ok tt w'
    /\ stores_to SPI0 (trace w')
       = stores_to SPI0 (trace w)
         ++ [(2, Z.quot 250000000 freq mod 2 ^ 32);
             (0, settings mod 2 ^ 32);
             (0, Z.lor cs0 0x80 mod 2 ^ 32)]
    /\ Z.testbit (Z.lor cs0 0x80 mod 2 ^ 32) 7 = true
    /\ console (trace w') = console (trace w)
    /\ (forall q, 0 <= q <= 53 ->
          fsel_field (gpio w') q
          = if (8 <=? q) && (q <=? 11) then ALT0 else fsel_field (gpio w) q).
Proof.
  intros _ Hopen Hmap Hcs.
  rewrite (spi_init_run freq settings w cs0 cs_rest) by assumption.
  eexists. split; [reflexivity |].
  rewrite !trace_emit, trace_with_spi0_cs, !trace_emit.
  rewrite !gpio_emit, gpio_with_spi0_cs, !gpio_emit.
  destruct (pin_mode_frame 8 ALT0 w) as (_ & B1 & C1); [lia | unfold ALT0; lia |].
  destruct (pin_mode_frame 9 ALT0 (pin_mode 8 ALT0 w)) as (_ & B2 & C2);
    [lia | unfold ALT0; lia |].
  destruct (pin_mode_frame 10 ALT0 (pin_mode 9 ALT0 (pin_mode 8 ALT0 w)))
    as (_ & B3 & C3); [lia | unfold ALT0; lia |].
  destruct (pin_mode_frame 11 ALT0
              (pin_mode 10 ALT0 (pin_mode 9 ALT0 (pin_mode 8 ALT0 w))))
    as (_ & B4 & C4); [lia | unfold ALT0; lia |].
  rewrite !stores_to_app, !console_app, B4, B3, B2, B1, C4, C3, C2, C1.
  cbn [stores_to console device_eqb].
  rewrite !app_nil_r, <- !app_assoc.
  split; [reflexivity |]. split.
  - fold (to_uint (Z.lor cs0 0x80)).
    rewrite testbit_to_uint, Z.lor_spec by lia.
    replace (Z.testbit 0x80 7) with true by reflexivity.
    rewrite orb_true_r. reflexivity.
  - split; [reflexivity |].
    intros q Hq. apply fsel_field_spi_pins. exact Hq.
Qed.

Lemma spi_init_configures_witness :
  exists w',
    spi_init 244000 0 (spi_world []) = Ok tt w'
    /\ stores_to SPI0 (trace w')
       = [(2, Z.quot 250000000 244000 mod 2 ^ 32);
          (0, 0 mod 2 ^ 32);
          (0, Z.lor 0x00010000 0x80 mod 2 ^ 32)]
    /\ Z.testbit (Z.lor 0x00010000 0x80 mod 2 ^ 32) 7 = true
    /\ console (trace w') = []
    /\ (forall q, 0 <= q <= 53 ->
          fsel_field (gpio w') q
          = if (8 <=? q) && (q <=? 11) then ALT0
            else fsel_field (gpio (spi_world [])) q).
Proof.
  apply (spi_init_configures 244000 0 0x00010000 [] (spi_world []));
    [lia | reflexivity ..].
Defined.

(** X10.  A mapping that cannot be had is fatal to each of the three
    initialisers: without /dev/mem they print "can't open /dev/mem " and
    exit with -1; with it but without the mapping they print their mmap
    diagnostic ([spi_init] the one of the timer) with MAP_FAILED as -1 and
    exit with -1.  Either way no register is stored to: [spi_init] has not
    touched a pin. *)
Theorem init_failure_is_fatal (freq settings : Z) (w : world) :
  (dev_mem_ok w = false ->
     let w' := printf ("can't open /dev/mem " ++ newline)%string w in
     pio_init w = Exit (-1) w'
     /\ timer_init w = Exit (-1) w'
     /\ spi_init freq settings w = Exit (-1) w'
     /\ (forall d, stores_to d (trace w') = stores_to d (trace w))
     /\ (forall i, gpio w' i = gpio w i))
  /\
  (dev_mem_ok w = true -> mmap_ok w = false ->
     let g := printf ("gpio mmap error -1" ++ newline)%string w in
     let t := printf ("sys_timer mmap error -1" ++ newline)%string w in
     pio_init w = Exit (-1) g
     /\ timer_init w = Exit (-1) t
     /\ spi_init freq settings w = Exit (-1) t
     /\ (forall d, stores_to d (trace t) = stores_to d (trace w))
     /\ (forall i, gpio t i = gpio w i)).
Proof.
  split.
  - intros Hopen w'.
    destruct (printf_frame ("can't open /dev/mem " ++ newline)%string w)
      as (Hstores & Hgpio & _).
    unfold pio_init, timer_init, spi_init, bind, map_block.
    rewrite Hopen. cbn [negb]. repeat split; assumption.
  - intros Hopen Hmap g t.
    destruct (printf_frame ("sys_timer mmap error -1" ++ newline)%string w)
      as (Hstores & Hgpio & _).
    unfold pio_init, timer_init, spi_init, bind, map_block.
    rewrite Hopen, Hmap. cbn [negb]. repeat split; assumption.
Qed.

Lemma init_failure_is_fatal_witness :
  spi_init 244000 0 no_dev_mem_world
  = Exit (-1) (printf ("can't open /dev/mem " ++ newline)%string no_dev_mem_world)
  /\ spi_init 244000 0 no_mmap_world
     = Exit (-1)
         (printf ("sys_timer mmap error -1" ++ newline)%string no_mmap_world).
Proof.
  split.
  - destruct (init_failure_is_fatal 244000 0 no_dev_mem_world) as (H & _).
    apply H. reflexivity.
  - destruct (init_failure_is_fatal 244000 0 no_mmap_world) as (_ & H).
    apply H; reflexivity.
Defined.

(** ** The reading *)

Lemma lor_disjoint_add (a b : Z) : Z.land a b = 0 -> Z.lor a b = a + b.
Proof.
  intros H. rewrite <- Z.lxor_lor by exact H.
  symmetry. apply Z.add_nocarry_lxor. exact H.
Qed.

(** The 10-bit sample put together from the two bytes, in arithmetic. *)
Lemma adc_response_value (d1 d2 : Z) :
  adc_response (to_char d1) (to_char d2) = 256 * (d1 mod 4) + d2 mod 256.
Proof.
  unfold adc_response, to_char, shl_int.
  rewrite Z.lor_0_l.
  change 0x03 with (Z.ones 2). rewrite Z.land_ones by lia.
  replace ((d1 mod 2 ^ 8) mod 2 ^ 2) with (d1 mod 4).
  - assert (H4 : 0 <= d1 mod 4 < 4) by (apply Z.mod_pos_bound; lia).
    assert (H256 : 0 <= d2 mod 2 ^ 8 < 2 ^ 8) by (apply Z.mod_pos_bound; lia).
    rewrite Z.shiftl_mul_pow2 by lia.
    rewrite to_int_small by (unfold INT_MIN, INT_MAX; lia).
    rewrite lor_disjoint_add.
    + change (2 ^ 8) with 256. lia.
    + apply Z.bits_inj'. intros k Hk.
      rewrite Z.land_spec, Z.bits_0.
      destruct (Z.ltb_spec k 8).
      * rewrite Z.mul_pow2_bits_low by lia. reflexivity.
      * rewrite (Z.mod_pow2_bits_high d2 8 k) by lia. apply andb_false_r.
  - change (2 ^ 8) with (4 * 64). change (2 ^ 2) with 4.
    rewrite Z.rem_mul_r by lia.
    rewrite (Z.mul_comm 4 ((d1 / 4) mod 64)), Z.mod_add by lia.
    rewrite Z.mod_mod by lia. reflexivity.
Qed.

(** X11.  Whatever two words the data register yields, the truncated
    temperature is the 10-bit sample 256 * (d1 mod 4) + d2 mod 256 times
    625 / 4096 with the fraction dropped, and it lies between 0 and 156:
    the six high bits of the first byte play no part. *)
Theorem reading_is_floor (d1 d2 : Z) :
  reading d1 d2 = (256 * (d1 mod 4) + d2 mod 256) * 625 / 4096
  /\ 0 <= reading d1 d2 <= 156
  /\ (forall h, reading (d1 + 4 * h) d2 = reading d1 d2).
Proof.
  destruct (reading_value d1 d2) as [Hval Hrange].
  rewrite adc_response_value in Hval.
  split; [exact Hval |]. split; [exact Hrange |].
  intros h.
  destruct (reading_value (d1 + 4 * h) d2) as [Hval' _].
  rewrite adc_response_value in Hval'.
  rewrite Hval, Hval'.
  replace ((d1 + 4 * h) mod 4) with (d1 mod 4); [reflexivity |].
  rewrite (Z.mul_comm 4 h), Z.mod_add by lia. reflexivity.
Qed.

(** ** One turn of the loop *)

(** The store to the heater pin. *)
Lemma digital_write_control_pin (v : Z) (x : world) :
  stores_to GPIO (trace (digital_write CONTROLPIN v x))
  = stores_to GPIO (trace x) ++ [(if v =? 0 then 10 else 7, 2 ^ 17)].
Proof.
  unfold digital_write.
  rewrite pin_accepted by (unfold CONTROLPIN; lia).
  replace (CONTROLPIN <? 32) with true by reflexivity.
  destruct (v =? 0); cbn [negb]; unfold gpio_store; cbn [trace];
    rewrite stores_to_app; cbn [stores_to device_eqb];
    rewrite digital_write_word by (unfold CONTROLPIN; lia); reflexivity.
Qed.

(** What a turn prints, and that printing is all it does there. *)
Lemma report_frame (cur : Z) (c : control) (x : world) :
  let reported :=
    if cur =? last_temp c then x
    else
      let w1 := printf ("current temp: " ++ decimal cur ++ newline)%string x in
      if target_temp c <=? cur then
        printf ("overshoot: "
                  ++ decimal (to_uint (overshoot c - target_temp c))
                  ++ newline)%string w1
      else w1 in
  (forall d, stores_to d (trace reported) = stores_to d (trace x))
  /\ spi0_cs reported = spi0_cs x
  /\ spi0_fifo reported = spi0_fifo x.
Proof.
  cbv zeta.
  destruct (cur =? last_temp c); [repeat split |].
  destruct (target_temp c <=? cur).
  - split; [| split; reflexivity].
    intros d.
    match goal with |- context [printf ?s2 (printf ?s1 x)] =>
      destruct (printf_frame s1 x) as (H1 & _);
      destruct (printf_frame s2 (printf s1 x)) as (H2 & _) end.
    rewrite H2. apply H1.
  - split; [| split; reflexivity].
    intros d.
    match goal with |- context [printf ?s1 x] =>
      destruct (printf_frame s1 x) as (H1 & _) end.
    apply H1.
Qed.

(** X12.  A turn whose two transfers complete makes exactly one store to
    the GPIO block: bit 17 to the set word 7 when the reading is below the
    target, to the clear word 10 when it is at or above it.  It keeps the
    target, records the reading as the last one and has used up two data
    words. *)
Theorem check_temp_drives_heater
  (c : control) (w : world) (d1 d2 : Z) (fifo_rest : list Z) :
  (2 <= count_ready 0x00010000 (spi0_cs w))%nat ->
  spi0_fifo w = d1 :: d2 :: fifo_rest ->
  exists c' w',
    check_temp c w = Ok c' w'
    /\ stores_to GPIO (trace w')
       = stores_to GPIO (trace w)
         ++ [(if reading d1 d2 <? target_temp c then 7 else 10, 2 ^ 17)]
    /\ target_temp c' = target_temp c
    /\ last_temp c' = reading d1 d2
    /\ spi0_fifo w' = fifo_rest.
Proof.
  intros Hready Hfifo.
  destruct (check_temp_run c w d1 d2 fifo_rest Hready Hfifo) as (cs & _ & E).
  rewrite E, check_temp_body_run. cbv zeta.
  eexists _, _. split; [reflexivity |].
  cbn [target_temp last_temp].
  match goal with |- context [digital_write CONTROLPIN ?v ?x] =>
    destruct (digital_write_frame CONTROLPIN v x) as (_ & Hf & _);
    pose proof (digital_write_control_pin v x) as Hs end.
  rewrite Hs, Hf.
  match goal with |- context [if reading d1 d2 =? last_temp c then ?x else _] =>
    destruct (report_frame (reading d1 d2) c x) as (Hst & _ & Hfi) end.
  cbv zeta in Hst, Hfi. rewrite Hst, Hfi.
  cbn [trace spi0_fifo]. rewrite stores_to_app. cbn [stores_to device_eqb].
  rewrite app_nil_r.
  repeat split.
  destruct (reading d1 d2 <? target_temp c); reflexivity.
Qed.

Lemma check_temp_drives_heater_witness :
  exists c' w',
    check_temp (mkControl 50 0 0) (spi_world [1; 39]) = Ok c' w'
    /\ stores_to GPIO (trace w')
       = [(if reading 1 39 <? 50 then 7 else 10, 2 ^ 17)]
    /\ target_temp c' = 50
    /\ last_temp c' = reading 1 39
    /\ spi0_fifo w' = [].
Proof.
  apply (check_temp_drives_heater (mkControl 50 0 0) (spi_world [1; 39]) 1 39 []).
  - simpl. lia.
  - reflexivity.
Defined.

(** X13.  A turn prints nothing when the reading is the one recorded
    last, and only the "current temp" line when the reading is new and
    below the target. *)
Theorem check_temp_console
  (c : control) (w : world) (d1 d2 : Z) (fifo_rest : list Z) :
  (2 <= count_ready 0x00010000 (spi0_cs w))%nat ->
  spi0_fifo w = d1 :: d2 :: fifo_rest ->
  (reading d1 d2 = last_temp c ->
     console (trace (world_of (check_temp c w))) = console (trace w))
  /\
  (reading d1 d2 <> last_temp c -> reading d1 d2 < target_temp c ->
     console (trace (world_of (check_temp c w)))
     = console (trace w)
       ++ [("current temp: " ++ decimal (reading d1 d2) ++ newline)%string]).
Proof.
  intros Hready Hfifo.
  destruct (check_temp_run c w d1 d2 fifo_rest Hready Hfifo) as (cs & _ & E).
  rewrite E, check_temp_body_run. cbv zeta. unfold world_of.
  match goal with |- context [digital_write CONTROLPIN ?v ?x] =>
    destruct (digital_write_frame CONTROLPIN v x) as (Hc & _) end.
  rewrite Hc.
  replace ((CONTROLPIN >? 53) || (CONTROLPIN <? 0)) with false by reflexivity.
  rewrite app_nil_r.
  split.
  - intros Hsame.
    replace (reading d1 d2 =? last_temp c) with true
      by (symmetry; apply Z.eqb_eq; exact Hsame).
    cbn [trace]. rewrite console_app. cbn [console]. apply app_nil_r.
  - intros Hnew Hcold.
    replace (reading d1 d2 =? last_temp c) with false
      by (symmetry; apply Z.eqb_neq; exact Hnew).
    replace (target_temp c <=? reading d1 d2) with false
      by (symmetry; apply Z.leb_gt; exact Hcold).
    rewrite console_printf. cbn [trace]. rewrite console_app. cbn [console].
    rewrite app_nil_r. reflexivity.
Qed.

Lemma check_temp_console_witness :
  console (trace (world_of (check_temp (mkControl 50 45 45) (spi_world [1; 39]))))
  = []
  /\ console (trace (world_of (check_temp (mkControl 50 0 0) (spi_world [1; 39]))))
     = [("current temp: " ++ decimal (reading 1 39) ++ newline)%string].
Proof.
  split.
  - destruct (check_temp_console (mkControl 50 45 45) (spi_world [1; 39]) 1 39 [])
      as (H & _); [simpl; lia | reflexivity |].
    apply H. vm_compute. reflexivity.
  - destruct (check_temp_console (mkControl 50 0 0) (spi_world [1; 39]) 1 39 [])
      as (_ & H); [simpl; lia | reflexivity |].
    apply H; vm_compute; [discriminate | reflexivity].
Defined.

(** ** When the ADC does not answer *)

Lemma heater_untouched_refl (w : world) : heater_untouched w w.
Proof. repeat split. Qed.

Lemma heater_untouched_trans (w1 w2 w3 : world) :
  heater_untouched w1 w2 -> heater_untouched w2 w3 -> heater_untouched w1 w3.
Proof.
  intros (A1 & B1 & C1) (A2 & B2 & C2). repeat split.
  - rewrite A2. exact A1.
  - rewrite B2. exact B1.
  - intros i. rewrite C2. apply C1.
Qed.

(** A transfer returns or hangs; it does not leave the process, and in
    either case the heater and the console are as before. *)
Lemma spi_send_receive_outcome (send : Z) (w : world) :
  exists w',
    ((exists v, spi_send_receive send w = Ok v w')
     \/ spi_send_receive send w = Hang w')
    /\ heater_untouched w w'.
Proof.
  unfold spi_send_receive, bind, spi0_store, lift, spi0_await_cs, poll, emit.
  cbn [spi0_cs].
  destruct (await 65536 (spi0_cs w)) as [cs_rest |].
  - unfold spi0_load_fifo, load, with_spi0_cs. cbn [spi0_fifo].
    destruct (spi0_fifo w) as [| d fifo_rest].
    + eexists. split; [right; reflexivity |].
      unfold heater_untouched. cbn [trace gpio].
      rewrite stores_to_app, console_app. cbn [stores_to console device_eqb].
      rewrite !app_nil_r. repeat split.
    + eexists. split; [left; eexists; reflexivity |].
      unfold heater_untouched, with_spi0_fifo. cbn [trace gpio].
      rewrite stores_to_app, console_app. cbn [stores_to console device_eqb].
      rewrite !app_nil_r. repeat split.
  - eexists. split; [right; reflexivity |].
    unfold heater_untouched, with_spi0_cs. cbn [trace gpio].
    rewrite stores_to_app, console_app. cbn [stores_to console device_eqb].
    rewrite !app_nil_r. repeat split.
Qed.

Lemma get_current_temp_outcome (w : world) :
  exists w',
    ((exists t, get_current_temp w = Ok t w')
     \/ get_current_temp w = Hang w')
    /\ heater_untouched w w'.
Proof.
  unfold get_current_temp, bind.
  destruct (spi_send_receive_outcome 0x68 w) as (w1 & [[one E1] | E1] & F1);
    rewrite E1.
  - destruct (spi_send_receive_outcome 0x00 w1) as (w2 & [[two E2] | E2] & F2);
      rewrite E2.
    + exists w2. split; [left; eexists; reflexivity |].
      exact (heater_untouched_trans _ _ _ F1 F2).
    + exists w2. split; [right; reflexivity |].
      exact (heater_untouched_trans _ _ _ F1 F2).
  - exists w1. split; [right; reflexivity | exact F1].
Qed.

(** X14.  A turn that does not come to its end hangs in the ADC read-out:
    it has not stored to the GPIO block, so the heater stays as the turn
    before left it, and it has printed nothing.  A turn never leaves the
    process. *)
Theorem check_temp_failure_is_a_hang (c : control) (w : world) :
  value_of (check_temp c w) = None ->
  exists w',
    check_temp c w = Hang w'
    /\ stores_to GPIO (trace w') = stores_to GPIO (trace w)
    /\ console (trace w') = console (trace w)
    /\ (forall i, gpio w' i = gpio w i).
Proof.
  intros Hnone.
  destruct (get_current_temp_outcome w) as (w1 & [[t E] | E] & F).
  - exfalso. unfold check_temp, bind in Hnone. rewrite E in Hnone.
    rewrite check_temp_body_run in Hnone. discriminate Hnone.
  - exists w1. split; [| exact F].
    unfold check_temp, bind. rewrite E. reflexivity.
Qed.

Lemma check_temp_failure_is_a_hang_witness :
  exists w',
    check_temp (mkControl 50 45 45) (digital_write CONTROLPIN 1 blank_world)
    = Hang w'
    /\ stores_to GPIO (trace w')
       = stores_to GPIO (trace (digital_write CONTROLPIN 1 blank_world))
    /\ console (trace w')
       = console (trace (digital_write CONTROLPIN 1 blank_world))
    /\ (forall i, gpio w' i = gpio (digital_write CONTROLPIN 1 blank_world) i).
Proof.
  apply (check_temp_failure_is_a_hang (mkControl 50 45 45)
           (digital_write CONTROLPIN 1 blank_world)).
  reflexivity.
Defined.

(** ** Any number of turns *)

Lemma last_cons (r d : Z) (l : list Z) : last (r :: l) d = last l r.
Proof.
  revert r d. induction l as [| a l IH]; intros r d.
  - reflexivity.
  - change (last (r :: a :: l) d) with (last (a :: l) d).
    rewrite (IH a d), (IH a r). reflexivity.
Qed.

(** The machine a turn leaves behind, as far as the next turn and the
    heater are concerned. *)
Lemma check_temp_leaves (c : control) (w : world) (d1 d2 : Z) (fifo_rest : list Z) :
  (2 <= count_ready 0x00010000 (spi0_cs w))%nat ->
  spi0_fifo w = d1 :: d2 :: fifo_rest ->
  exists c' w',
    check_temp c w = Ok c' w'
    /\ target_temp c' = target_temp c
    /\ last_temp c' = reading d1 d2
    /\ spi0_fifo w' = fifo_rest
    /\ count_ready 0x00010000 (spi0_cs w)
       = S (S (count_ready 0x00010000 (spi0_cs w')))
    /\ stores_to GPIO (trace w')
       = stores_to GPIO (trace w) ++ [heater_store (target_temp c) (reading d1 d2)].
Proof.
  intros Hready Hfifo.
  destruct (check_temp_run c w d1 d2 fifo_rest Hready Hfifo) as (cs & Hcount & E).
  rewrite E, check_temp_body_run. cbv zeta.
  eexists _, _. split; [reflexivity |].
  cbn [target_temp last_temp].
  match goal with |- context [digital_write CONTROLPIN ?v ?x] =>
    destruct (digital_write_frame CONTROLPIN v x) as (_ & Hf & Hc);
    pose proof (digital_write_control_pin v x) as Hs end.
  rewrite Hs, Hf, Hc.
  match goal with |- context [if reading d1 d2 =? last_temp c then ?x else _] =>
    destruct (report_frame (reading d1 d2) c x) as (Hst & Hcs & Hfi) end.
  cbv zeta in Hst, Hcs, Hfi. rewrite Hst, Hcs, Hfi.
  cbn [trace spi0_fifo spi0_cs]. rewrite stores_to_app. cbn [stores_to device_eqb].
  rewrite app_nil_r. unfold heater_store.
  repeat split; [exact Hcount |].
  destruct (reading d1 d2 <? target_temp c); reflexivity.
Qed.

(** X15.  As long as the SPI block completes its transfers the loop never
    stops by itself, and what it does to the heater is the readings put
    against the target one by one: after [n] turns the stores to the GPIO
    block are, in order, one per reading, set (word 7) for a reading below
    the target and clear (word 10) for one at or above it, always bit 17.
    The target is the one the loop started with, the last reading is the
    one recorded, and two data words per turn have been used up. *)
Theorem control_loop_heater_trace (n : nat) (c : control) (w : world) :
  (2 * n <= count_ready 0x00010000 (spi0_cs w))%nat ->
  (2 * n <= List.length (spi0_fifo w))%nat ->
  let seen := firstn n (readings (spi0_fifo w)) in
  exists c' w',
    control_loop n c w = Ok c' w'
    /\ List.length seen = n
    /\ stores_to GPIO (trace w')
       = stores_to GPIO (trace w) ++ map (heater_store (target_temp c)) seen
    /\ target_temp c' = target_temp c
    /\ last_temp c' = last seen (last_temp c)
    /\ spi0_fifo w' = skipn (2 * n) (spi0_fifo w).
Proof.
  revert c w. induction n as [| n IH]; intros c w Hready Hfifo seen.
  - exists c, w. subst seen. cbn [firstn map last skipn Nat.mul List.length].
    rewrite app_nil_r. repeat split.
  - destruct (spi0_fifo w) as [| d1 [| d2 rest]] eqn:F;
      cbn [List.length] in Hfifo; try lia.
    destruct (check_temp_leaves c w d1 d2 rest) as
      (c1 & w1 & E & Htg & Hla & Hfi & Hcount & Hst); [lia | exact F |].
    destruct (IH c1 w1) as (c' & w' & Hrun & Hlen & Hst' & Htg' & Hla' & Hfi');
      [lia | rewrite Hfi; lia |].
    cbv zeta in Hlen, Hst', Hla'.
    exists c', w'. subst seen.
    replace (2 * S n)%nat with (S (S (2 * n))) by lia.
    cbn [readings firstn skipn map List.length].
    split.
    { cbn [control_loop]. unfold bind. rewrite E. exact Hrun. }
    rewrite Hfi in Hlen, Hst', Hla', Hfi'.
    split; [f_equal; exact Hlen |]. split.
    { rewrite Hst', Hst, Htg, <- app_assoc. reflexivity. }
    split; [congruence |]. split.
    { rewrite last_cons, Hla', Hla. reflexivity. }
    exact Hfi'.
Qed.

Lemma control_loop_heater_trace_witness :
  let seen := firstn 5 (readings scenario_fifo) in
  exists c' w',
    control_loop 5 (mkControl 50 0 0) (spi_world scenario_fifo) = Ok c' w'
    /\ List.length seen = 5%nat
    /\ stores_to GPIO (trace w') = map (heater_store 50) seen
    /\ target_temp c' = 50
    /\ last_temp c' = last seen 0
    /\ spi0_fifo w' = [].
Proof.
  apply (control_loop_heater_trace 5 (mkControl 50 0 0) (spi_world scenario_fifo)).
  - simpl. lia.
  - simpl. lia.
Defined.

(** ** How [main] ends, and what it has set up when it does not *)

Lemma bind_exit {A B : Type} (m : M A) (k : A -> M B) (w w' : world) (code : Z) :
  bind m k w = Exit code w' ->
  m w = Exit code w' \/ exists a w1, m w = Ok a w1 /\ k a w1 = Exit code w'.
Proof.
  unfold bind. destruct (m w) as [a w1 | code1 w1 | w1]; intros H.
  - right. exists a, w1. split; [reflexivity | exact H].
  - left. injection H as -> ->. reflexivity.
  - discriminate H.
Qed.

Lemma Exit_code {A : Type} (a b : Z) (w w' : world) :
  @Exit A a w = Exit b w' -> a = b.
Proof. intros H. injection H as -> _. reflexivity. Qed.

Lemma map_block_exit (name : string) (w w' : world) (code : Z) :
  map_block name w = Exit code w' -> code = -1.
Proof.
  unfold map_block.
  destruct (negb (dev_mem_ok w)); [intros H; symmetry; exact (Exit_code _ _ _ _ H) |].
  destruct (negb (mmap_ok w)); [intros H; symmetry; exact (Exit_code _ _ _ _ H) |].
  discriminate.
Qed.

Lemma lift_no_exit (f : world -> world) (w w' : world) (code : Z) :
  lift f w <> Exit code w'.
Proof. discriminate. Qed.

Lemma load_no_exit (tape : world -> list Z) (with_tape : list Z -> world -> world)
  (w w' : world) (code : Z) :
  load tape with_tape w <> Exit code w'.
Proof. unfold load. destruct (tape w); discriminate. Qed.

Lemma spi_init_exit (freq settings code : Z) (w w' : world) :
  spi_init freq settings w = Exit code w' -> code = -1.
Proof.
  unfold spi_init. intros H.
  apply bind_exit in H. destruct H as [H | (_ & w1 & _ & H)].
  { exact (map_block_exit _ _ _ _ H). }
  do 4 (apply bind_exit in H; destruct H as [H | (_ & ? & _ & H)];
        [exfalso; exact (lift_no_exit _ _ _ _ H) |]).
  do 2 (apply bind_exit in H; destruct H as [H | (_ & ? & _ & H)];
        [exfalso; exact (lift_no_exit _ _ _ _ H) |]).
  apply bind_exit in H. destruct H as [H | (? & ? & _ & H)].
  - exfalso. exact (load_no_exit _ _ _ _ _ H).
  - exfalso. exact (lift_no_exit _ _ _ _ H).
Qed.

Lemma check_temp_no_exit (c : control) (w w' : world) (code : Z) :
  check_temp c w <> Exit code w'.
Proof.
  unfold check_temp, bind.
  destruct (get_current_temp_outcome w) as (w1 & [[t E] | E] & _); rewrite E.
  - rewrite check_temp_body_run. discriminate.
  - discriminate.
Qed.

Lemma control_loop_no_exit (n : nat) (c : control) (w w' : world) (code : Z) :
  control_loop n c w <> Exit code w'.
Proof.
  revert c w. induction n as [| n IH]; intros c w.
  - discriminate.
  - cbn [control_loop]. intros H. apply bind_exit in H.
    destruct H as [H | (c1 & w1 & _ & H)].
    + exact (check_temp_no_exit _ _ _ _ H).
    + exact (IH _ _ H).
Qed.

(** X16.  [main] leaves the process in three ways only: with 1 (wrong
    argument count), with 2 (target out of range) and with -1 (no
    mapping).  It never returns 0: once in the loop it stays there or
    hangs on the ADC. *)
Theorem main_exit_codes (n : nat) (argv : list string) (w : world) :
  match main n argv w with
  | Exit code _ => code = 1 \/ code = 2 \/ code = -1
  | Ok _ _ | Hang _ => True
  end.
Proof.
  destruct (main n argv w) as [c w' | code w' | w'] eqn:H; try exact I.
  unfold main in H.
  destruct (negb (Z.of_nat (List.length argv) =? 2)).
  - left. symmetry. exact (Exit_code _ _ _ _ H).
  - destruct ((to_uint (strtol (nth 1 argv EmptyString)) >? 70)
              || (to_uint (strtol (nth 1 argv EmptyString)) <? 30)).
    + right. left. symmetry. exact (Exit_code _ _ _ _ H).
    + right. right.
      apply bind_exit in H. destruct H as [H | (_ & w1 & _ & H)].
      { exact (map_block_exit _ _ _ _ H). }
      apply bind_exit in H. destruct H as [H | (_ & w2 & _ & H)].
      { exact (spi_init_exit _ _ _ _ _ H). }
      apply bind_exit in H. destruct H as [H | (_ & w3 & _ & H)].
      { exfalso. exact (lift_no_exit _ _ _ _ H). }
      exfalso. exact (control_loop_no_exit _ _ _ _ _ H).
Qed.

(** X17.  With a valid target but no access to the registers [main] stops
    in [pio_init]: it prints the one diagnostic and exits with -1, having
    configured no pin and stored to no register. *)
Theorem main_startup_failure (n : nat) (prog arg : string) (w : world) :
  30 <= to_uint (strtol arg) <= 70 ->
  (dev_mem_ok w = false ->
     main n [prog; arg] w
     = Exit (-1) (printf ("can't open /dev/mem " ++ newline)%string w))
  /\
  (dev_mem_ok w = true -> mmap_ok w = false ->
     main n [prog; arg] w
     = Exit (-1) (printf ("gpio mmap error -1" ++ newline)%string w))
  /\
  (forall s d, stores_to d (trace (printf s w)) = stores_to d (trace w))
  /\
  (forall s i, gpio (printf s w) i = gpio w i).
Proof.
  intros Hin. split; [| split; [| split]].
  - intros Hopen. rewrite main_valid_target by exact Hin.
    unfold bind at 1. unfold pio_init, map_block. rewrite Hopen. reflexivity.
  - intros Hopen Hmap. rewrite main_valid_target by exact Hin.
    unfold bind at 1. unfold pio_init, map_block. rewrite Hopen, Hmap.
    reflexivity.
  - intros s d. apply printf_frame.
  - intros s i. apply printf_frame.
Qed.

Lemma main_startup_failure_witness :
  main 3 ["./temp_control"; "50"] no_dev_mem_world
  = Exit (-1) (printf ("can't open /dev/mem " ++ newline)%string no_dev_mem_world)
  /\ main 3 ["./temp_control"; "50"] no_mmap_world
     = Exit (-1) (printf ("gpio mmap error -1" ++ newline)%string no_mmap_world).
Proof.
  split.
  - destruct (main_startup_failure 3 "./temp_control" "50" no_dev_mem_world)
      as (H & _); [vm_compute; split; discriminate |].
    apply H. reflexivity.
  - destruct (main_startup_failure 3 "./temp_control" "50" no_mmap_world)
      as (_ & H & _); [vm_compute; split; discriminate |].
    apply H; reflexivity.
Defined.

Lemma main_init_world (prog arg : string) (w : world) (cs0 : Z) (cs_rest : list Z) :
  dev_mem_ok w = true -> mmap_ok w = true ->
  spi0_cs w = cs0 :: cs_rest ->
  30 <= to_uint (strtol arg) <= 70 ->
  main 0 [prog; arg] w
  = Ok (mkControl (to_uint (strtol arg)) 0 0)
       (pin_mode CONTROLPIN OUTPUT
          (emit (Store SPI0 0 (to_uint (Z.lor cs0 0x00000080)))
             (with_spi0_cs cs_rest
                (emit (Store SPI0 0 (to_uint 0))
                   (emit (Store SPI0 2 (to_uint (div_int 250000000 244000)))
                      (pin_mode 11 ALT0
                         (pin_mode 10 ALT0
                            (pin_mode 9 ALT0 (pin_mode 8 ALT0 w))))))))).
Proof.
  intros Hopen Hmap Hcs Hin.
  rewrite main_valid_target by exact Hin.
  unfold bind at 1. unfold pio_init. rewrite map_block_ok by assumption.
  unfold bind at 1. rewrite (spi_init_run _ _ w cs0 cs_rest) by assumption.
  reflexivity.
Qed.

(** X18.  When [main] enters the loop the control pin 17 is an output,
    pins 8 to 11 are in alternate function 0 for the SPI block, and every
    other pin has the function it had before. *)
Theorem main_configures_pins
  (prog arg : string) (w : world) (cs0 : Z) (cs_rest : list Z) :
  dev_mem_ok w = true -> mmap_ok w = true ->
  spi0_cs w = cs0 :: cs_rest ->
  30 <= to_uint (strtol arg) <= 70 ->
  exists w',
    main 0 [prog; arg] w = Ok (mkControl (to_uint (strtol arg)) 0 0) w'
    /\ forall q, 0 <= q <= 53 ->
         fsel_field (gpio w') q
         = if q =? 17 then OUTPUT
           else if (8 <=? q) && (q <=? 11) then ALT0
           else fsel_field (gpio w) q.
Proof.
  intros Hopen Hmap Hcs Hin.
  rewrite (main_init_world prog arg w cs0 cs_rest) by assumption.
  eexists. split; [reflexivity |].
  intros q Hq.
  rewrite fsel_field_pin_mode by (unfold CONTROLPIN, OUTPUT; lia).
  unfold CONTROLPIN at 1.
  rewrite !gpio_emit, gpio_with_spi0_cs, !gpio_emit.
  rewrite fsel_field_spi_pins by exact Hq. reflexivity.
Qed.

Lemma main_configures_pins_witness :
  exists w',
    main 0 ["./temp_control"; "50"] (spi_world [])
    = Ok (mkControl (to_uint (strtol "50")) 0 0) w'
    /\ forall q, 0 <= q <= 53 ->
         fsel_field (gpio w') q
         = if q =? 17 then OUTPUT
           else if (8 <=? q) && (q <=? 11) then ALT0
           else fsel_field (gpio (spi_world [])) q.
Proof.
  apply (main_configures_pins "./temp_control" "50" (spi_world []) 0x00010000 []).
  - reflexivity.
  - reflexivity.
  - reflexivity.
  - vm_compute. split; discriminate.
Defined.

(** ** The interrupt handler *)

(** X19.  Whatever the machine is doing, [int_handler] makes one store,
    bit 17 to the clear word 10, prints nothing and leaves the process
    with 0: the heater is off when the process is gone. *)
Theorem int_handler_turns_heater_off (sig : Z) (w : world) :
  exists w',
    int_handler sig w = Exit 0 w'
    /\ stores_to GPIO (trace w') = stores_to GPIO (trace w) ++ [(10, 2 ^ 17)]
    /\ console (trace w') = console (trace w)
    /\ (forall i, i <> 10 -> gpio w' i = gpio w i).
Proof.
  unfold int_handler, bind, lift, exit.
  eexists. split; [reflexivity |].
  split; [apply (digital_write_control_pin 0 w) |].
  destruct (digital_write_frame CONTROLPIN 0 w) as (Hc & _).
  split.
  - rewrite Hc. apply app_nil_r.
  - intros i Hi. unfold digital_write.
    rewrite pin_accepted by (unfold CONTROLPIN; lia).
    unfold gpio_store. cbn [negb Z.eqb gpio].
    replace (CONTROLPIN <? 32) with true by reflexivity.
    apply Z.eqb_neq in Hi. rewrite Hi. reflexivity.
Qed.
